(** * Session persistence manager (src/session/manager.ts)

    A shallow embedding of the session store of [manager.ts] and of the
    storage backend it talks to, followed by the properties of the
    specification that concern it.

    Conventions of the embedding.
    - JavaScript values are the inductive [Value]; numbers are integers
      ([Z], exact for millisecond timestamps), [NaN] appears only as the
      result of arithmetic ([Number]).
    - Objects are association lists in property order ([Obj]); reading a
      missing property gives [VUndefined].
    - Every exported [async] function becomes a computation in the monad
      [M]: it threads the backend ([World]) and either returns or throws.
    - [Date.now()] is read once by each function; its value is the first
      argument [now] of the embedded function. *)

From Stdlib Require Import ZArith NArith Ascii String DecimalString List Bool Lia.
From stdpp Require Import gmap strings list fin_maps.

Set Warnings "-register-all".

Local Open Scope string_scope.
Local Open Scope Z_scope.

(** ** JavaScript values and objects *)

Inductive Value : Type :=
| VUndefined
| VNull
| VBool (b : bool)
| VNum (n : Z)
| VStr (s : string)
| VObj (props : list (string * Value)).

Abbreviation Obj := (list (string * Value)).

(** The result of an arithmetic expression. *)
Inductive Number : Type :=
| Fin (z : Z)
| NaN.

(** [o[k]] for an own property [k]. *)
Fixpoint obj_get (o : Obj) (k : string) : Value :=
  match o with
  | [] => VUndefined
  | (k', v) :: o' => if String.eqb k k' then v else obj_get o' k
  end.

(** [{ ...o, k: v }]: an existing property keeps its place, a new one is
    added last. *)
Fixpoint obj_set (k : string) (v : Value) (o : Obj) : Obj :=
  match o with
  | [] => [(k, v)]
  | (k', v') :: o' =>
      if String.eqb k k' then (k, v) :: o' else (k', v') :: obj_set k v o'
  end.

Definition is_undefined (v : Value) : bool :=
  match v with VUndefined => true | _ => false end.

(** JavaScript truthiness, [if (v)]. *)
Definition truthy (v : Value) : bool :=
  match v with
  | VUndefined | VNull => false
  | VBool b => b
  | VNum n => negb (Z.eqb n 0)
  | VStr s => negb (String.eqb s "")
  | VObj _ => true
  end.

(** An optional string parameter ([userId?: string]) as the value the
    code sees. *)
Definition of_opt (o : option string) : Value :=
  match o with Some s => VStr s | None => VUndefined end.

(** [a === b]. Two objects are equal only when they are the same
    reference; the source compares with strings only, so an object
    operand is never equal. *)
Definition strict_eq (a b : Value) : bool :=
  match a, b with
  | VUndefined, VUndefined => true
  | VNull, VNull => true
  | VBool x, VBool y => Bool.eqb x y
  | VNum x, VNum y => Z.eqb x y
  | VStr x, VStr y => String.eqb x y
  | _, _ => false
  end.

(** ** Exceptions and the computation monad *)

(** A thrown object, seen as the source sees it in
    [error as { name: string; code: string }]. *)
Record Exn : Type := { name : string; code : option string }.

(** Thrown by the runtime when a property of [undefined] or [null] is
    read. *)
Definition TypeError : Exn := {| name := "TypeError"; code := None |}.

Inductive Outcome (A : Type) : Type :=
| Return (a : A)
| Throw (e : Exn).
Arguments Return {A} a.
Arguments Throw {A} e.

(** [v.k]: reading a property of a value. The property names read by
    the source are not defined on the prototypes of primitives. *)
Definition prop (v : Value) (k : string) : Outcome Value :=
  match v with
  | VUndefined | VNull => Throw TypeError
  | VObj o => Return (obj_get o k)
  | VBool _ | VNum _ | VStr _ => Return VUndefined
  end.

Definition bind_outcome {A B} (o : Outcome A) (k : A -> Outcome B) : Outcome B :=
  match o with Return a => k a | Throw e => Throw e end.

(** ** The storage backend

    The table is an external collaborator (DynamoDB behind the AWS
    document client). Its contract is modelled from the spec (sections 2
    and 6: get, put, update, delete by primary key, an atomic conditional
    update, queries against the secondary indexes, a filtered scan) and
    from what the commands issued by the source ask for. Reads are
    complete and consistent; passive expiry is the absence of any step. *)

(** Expressions over the attributes of one item, with the values of the
    placeholders ([:status], [:now], ...) substituted and [#status]
    resolved to [status]. Only the operators the source writes. *)
Inductive Expr : Type :=
| AttrEq (attr : string) (v : Value)       (* attr = :v   *)
| AttrLt (attr : string) (n : Z)           (* attr < :n   *)
| EAnd (a b : Expr).                       (* a AND b     *)

(** Equality of a stored attribute with an operand: both strings, or
    both numbers, and the same. *)
Definition attr_eq (x v : Value) : bool :=
  match x, v with
  | VStr a, VStr b => String.eqb a b
  | VNum a, VNum b => Z.eqb a b
  | _, _ => false
  end.

(** A missing attribute, or one of another type, satisfies no
    comparison. *)
Fixpoint eval (e : Expr) (item : Obj) : bool :=
  match e with
  | AttrEq a v => attr_eq (obj_get item a) v
  | AttrLt a n => match obj_get item a with VNum m => Z.ltb m n | _ => false end
  | EAnd a b => eval a item && eval b item
  end.

(** A key condition as the source writes it, before substitution:
    equalities of an attribute with a placeholder, joined by [AND]
    ([userId = :userId AND #status = :status]). A query carries it next to
    its [ExpressionAttributeValues], because the table checks the one
    against the other. The updates and the scan of the source use every
    value they send; they are kept in substituted form. *)
Inductive KeyCondition : Type :=
| KeyEq (attr placeholder : string)        (* attr = :placeholder *)
| KeyAnd (a b : KeyCondition).             (* a AND b             *)

(** The placeholders an expression mentions. *)
Fixpoint placeholders (k : KeyCondition) : list string :=
  match k with
  | KeyEq _ p => [p]
  | KeyAnd a b => placeholders a ++ placeholders b
  end.

(** The expression with the values of its placeholders substituted;
    [None] when a placeholder has no value. *)
Fixpoint substitute (values : Obj) (k : KeyCondition) : option Expr :=
  match k with
  | KeyEq a p =>
      match obj_get values p with
      | VUndefined => None
      | v => Some (AttrEq a v)
      end
  | KeyAnd a b =>
      match substitute values a, substitute values b with
      | Some ea, Some eb => Some (EAnd ea eb)
      | _, _ => None
      end
  end.

(** Every value that is sent is used by the expression. *)
Definition all_used (values : Obj) (k : KeyCondition) : bool :=
  forallb (fun kv => existsb (String.eqb (fst kv)) (placeholders k)) values.

Inductive Command : Type :=
| GetCommand (Key : string)
| PutCommand (Item : Obj)
| UpdateCommand (Key : string) (UpdateExpression : list (string * Value))
                (ConditionExpression : option Expr)
| DeleteCommand (Key : Value)
| QueryCommand (IndexName : option string) (KeyConditionExpression : option KeyCondition)
               (ExpressionAttributeValues : Obj)
| ScanCommand (FilterExpression : Expr).

(** The response object: [response.Item], [response.Items]. *)
Record Response : Type := { Item : option Obj; Items : option (list Obj) }.

Definition no_output : Response := {| Item := None; Items := None |}.

(** The error of a conditional write whose condition does not hold, as
    the client the source imports (AWS SDK for JavaScript, version 3)
    throws it: the exception is identified by its [name] and has no
    property [code]. *)
Definition ConditionalCheckFailedException : Exn :=
  {| name := "ConditionalCheckFailedException"; code := None |}.

(** A request the table rejects: no key, no index, a placeholder without
    value, a value that no expression uses. *)
Definition ValidationException : Exn :=
  {| name := "ValidationException"; code := None |}.

(** Undefined properties are not stored. *)
Definition marshall (o : Obj) : Obj :=
  List.filter (fun kv => negb (is_undefined (snd kv))) o.

(** [SET a = :v, ...] applied left to right. *)
Definition apply_sets (sets : list (string * Value)) (item : Obj) : Obj :=
  fold_left (fun it kv => obj_set (fst kv) (snd kv) it) sets item.

(** All items of the table. *)
Definition items (t : gmap string Obj) : list Obj := (map_to_list t).*2.

(** One command against the table. The primary key is the string
    attribute [sessionId]. An update of a missing key creates the item
    from the key and the assignments; its condition, if any, is evaluated
    on the stored item and fails when there is none. A query is validated
    before it is run: it names an index and a key condition, every value
    it sends is used by the key condition, and every placeholder has a
    value. The refusal of an empty key string is not modelled; the
    properties below are read for non-empty ids ([wf_table]). *)
Definition exec (c : Command) (t : gmap string Obj)
  : Outcome Response * gmap string Obj :=
  match c with
  | GetCommand k => (Return {| Item := t !! k; Items := None |}, t)
  | PutCommand item =>
      match obj_get item "sessionId" with
      | VStr k => (Return no_output, <[k := marshall item]> t)
      | _ => (Throw ValidationException, t)
      end
  | UpdateCommand k sets cond =>
      let holds :=
        match cond with
        | None => true
        | Some e => eval e (default [] (t !! k))
        end in
      if holds
      then (Return no_output,
            <[k := apply_sets sets (default [("sessionId", VStr k)] (t !! k))]> t)
      else (Throw ConditionalCheckFailedException, t)
  | DeleteCommand key =>
      match key with
      | VStr k => (Return no_output, delete k t)
      | _ => (Throw ValidationException, t)
      end
  | QueryCommand idx kc values =>
      match idx, kc with
      | Some _, Some k =>
          if all_used values k then
            match substitute values k with
            | Some e =>
                (Return {| Item := None;
                           Items := Some (List.filter (eval e) (items t)) |}, t)
            | None => (Throw ValidationException, t)
            end
          else (Throw ValidationException, t)
      | _, _ => (Throw ValidationException, t)
      end
  | ScanCommand e =>
      (Return {| Item := None; Items := Some (List.filter (eval e) (items t)) |}, t)
  end.

(** The backend as the process sees it: the table, the failures the
    next commands will meet (network, throttling; [None] or an exhausted
    list is a command that goes through) and the commands sent so far. *)
Record World : Type :=
  { table : gmap string Obj;
    faults : list (option Exn);
    log : list Command }.

Definition M (A : Type) : Type := World -> Outcome A * World.

#[global] Instance M_ret : MRet M := fun A a w => (Return a, w).

#[global] Instance M_bind : MBind M := fun A B k m w =>
  match m w with
  | (Return a, w') => k a w'
  | (Throw e, w') => (Throw e, w')
  end.

Definition throw {A} (e : Exn) : M A := fun w => (Throw e, w).

Definition lift {A} (o : Outcome A) : M A := fun w => (o, w).

(** [try { body } catch (error) { handler }]. *)
Definition try_catch {A} (body : M A) (handler : Exn -> M A) : M A := fun w =>
  match body w with
  | (Return a, w') => (Return a, w')
  | (Throw e, w') => handler e w'
  end.

(** The failure waiting for the next command, if any. *)
Definition next_fault (w : World) : option Exn :=
  match faults w with
  | Some e :: _ => Some e
  | _ => None
  end.

(** [await docClient.send(c)]. *)
Definition send (c : Command) : M Response := fun w =>
  let sent t := {| table := t; faults := tail (faults w); log := log w ++ [c] |} in
  match next_fault w with
  | Some e => (Throw e, sent (table w))
  | None => let r := exec c (table w) in (fst r, sent (snd r))
  end.

(** [for (const x of l) { await body(x) }]. *)
Fixpoint for_each {A} (l : list A) (body : A -> M unit) : M unit :=
  match l with
  | [] => mret tt
  | x :: l' => _ ← body x; for_each l' body
  end.

(** [l.filter(p)] for a callback that may throw. *)
Fixpoint filter_array (p : Obj -> Outcome bool) (l : list Obj) : Outcome (list Obj) :=
  match l with
  | [] => Return []
  | x :: l' =>
      bind_outcome (p x) (fun keep =>
      bind_outcome (filter_array p l') (fun rest =>
      Return (if keep then x :: rest else rest)))
  end.

(** ** The types of [./types.js] *)

(** Modelled from the spec: [types.ts] is not among the sources. The
    status enumeration of section 4.2; the source names only [RUNNING]. *)
Inductive SessionStatus : Type := PENDING | RUNNING | COMPLETED | FAILED | CANCELLED.

(** Modelled from the spec: the string a status is stored as (the table
    declares [status] with attribute type [S]); taken to be its name. *)
Definition status_str (s : SessionStatus) : string :=
  match s with
  | PENDING => "PENDING"
  | RUNNING => "RUNNING"
  | COMPLETED => "COMPLETED"
  | FAILED => "FAILED"
  | CANCELLED => "CANCELLED"
  end.

(** Modelled from the spec: [PersistedSessionState] of [types.ts] embeds
    one [SessionMetadata] under [metadata], next to the opaque payloads
    (section 3). The metadata is kept as the object the source spreads. *)
Record PersistedSessionState : Type :=
  { metadata : Obj;
    thetaState : Value;
    context : Value;
    error : Value }.

(** Modelled from the spec: the fields of a [SessionMetadata] object
    (section 3). *)
Definition SessionMetadata_fields : list string :=
  ["sessionId"; "userId"; "guildId"; "channelId"; "status";
   "startTime"; "lastUpdateTime"; "expiresAt"].

(** Modelled from the spec: [SaveStateOptions] of [types.ts], the two
    options [saveState] reads. *)
Record SaveStateOptions : Type :=
  { ttl : option Z;
    includeError : bool }.

(** Modelled from the spec: [PendingSessionsFilter] of [types.ts], the
    four fields [getPendingSessions] reads. *)
Record PendingSessionsFilter : Type :=
  { userId : option string;
    guildId : option string;
    channelId : option string;
    status : option SessionStatus }.

(** Modelled from the spec: [RestoredSession] of [types.ts]. [state] is
    the stored item itself, cast by the source without conversion. *)
Record RestoredSession : Type :=
  { state : Obj;
    resumable : bool;
    elapsed : Number }.

(** ** Arithmetic on timestamps *)

Definition num_sub (a b : Number) : Number :=
  match a, b with Fin x, Fin y => Fin (x - y) | _, _ => NaN end.

Definition num_mul (a b : Number) : Number :=
  match a, b with Fin x, Fin y => Fin (x * y) | _, _ => NaN end.

(** [a > b]; false as soon as one side is [NaN]. *)
Definition num_gt (a b : Number) : bool :=
  match a, b with Fin x, Fin y => Z.ltb y x | _, _ => false end.

(** ** The session manager *)

Definition DEFAULT_TTL_SECONDS : Z := 60 * 60.

(** [state.metadata.k] on a stored item. *)
Definition metadata_field (state : Obj) (k : string) : Outcome Value :=
  bind_outcome (prop (VObj state) "metadata") (fun m => prop m k).

(** [deleteSession]. The key is a value: [cleanupExpiredSessions]
    passes on whatever the scanned item holds under [sessionId]. *)
Definition deleteSession (sessionId : Value) : M unit :=
  _ ← send (DeleteCommand sessionId); mret tt.

(** [saveState]. The item that is put has the metadata spread at its
    top level, next to [thetaState], [context] and [error]. *)
Definition saveState (now : Z) (sessionId : string) (st : PersistedSessionState)
    (options : SaveStateOptions) : M unit :=
  let ttl := default DEFAULT_TTL_SECONDS (ttl options) in
  let expiresAt := now / 1000 + ttl in
  let metadata :=
    obj_set "expiresAt" (VNum expiresAt)
      (obj_set "lastUpdateTime" (VNum now)
        (obj_set "sessionId" (VStr sessionId) (metadata st))) in
  _ ← send (PutCommand
        (obj_set "error" (if includeError options then error st else VUndefined)
          (obj_set "context" (context st)
            (obj_set "thetaState" (thetaState st) metadata))));
  mret tt.

(** [updateStatus]: an update without condition. *)
Definition updateStatus (now : Z) (sessionId : string) (s : SessionStatus) : M unit :=
  _ ← send (UpdateCommand sessionId
        [("status", VStr (status_str s)); ("lastUpdateTime", VNum now)]
        None);
  mret tt.

(** [updateStatusIf]: the same update under the condition
    [#status = :expectedStatus]; an error whose [code] is
    ["ConditionalCheckFailedException"] is caught and returned as [false],
    any other error is thrown again. *)
Definition updateStatusIf (now : Z) (sessionId : string)
    (newStatus expectedCurrentStatus : SessionStatus) : M bool :=
  try_catch
    (_ ← send (UpdateCommand sessionId
          [("status", VStr (status_str newStatus)); ("lastUpdateTime", VNum now)]
          (Some (AttrEq "status" (VStr (status_str expectedCurrentStatus)))));
     mret true)
    (fun err =>
       if bool_decide (code err = Some "ConditionalCheckFailedException")
       then mret false
       else throw err).

(** [filter.status] as the value the code sees. *)
Definition status_value (o : option SessionStatus) : Value :=
  of_opt (status_str <$> o).

(** The callback of the channel filter,
    [(s) => s.metadata.channelId === filter.channelId]. *)
Definition channel_check (filter : PendingSessionsFilter) (s : Obj) : Outcome bool :=
  bind_outcome (metadata_field s "channelId") (fun c =>
  Return (strict_eq c (of_opt (channelId filter)))).

(** [getPendingSessions]. With a status in the filter the function
    returns what the query found; without one it queries for RUNNING and
    then applies the channel filter. [now] only goes into the
    placeholder [:now], which no expression mentions. *)
Definition getPendingSessions (date_now : Z) (filter : PendingSessionsFilter)
  : M (list Obj) :=
  let now := date_now / 1000 in
  if negb (truthy (of_opt (userId filter))) && negb (truthy (of_opt (guildId filter)))
  then mret []
  else if truthy (status_value (status filter)) then
    let expressionValues :=
      [(":status", status_value (status filter)); (":now", VNum now)] in
    let '(indexName, keyCondition, expressionValues) :=
      if truthy (of_opt (userId filter)) then
        (Some "UserIndex",
         Some (KeyAnd (KeyEq "userId" ":userId") (KeyEq "status" ":status")),
         obj_set ":userId" (of_opt (userId filter)) expressionValues)
      else if truthy (of_opt (guildId filter)) then
        (Some "GuildIndex",
         Some (KeyAnd (KeyEq "guildId" ":guildId") (KeyEq "status" ":status")),
         obj_set ":guildId" (of_opt (guildId filter)) expressionValues)
      else (None, None, expressionValues) in
    response ← send (QueryCommand indexName keyCondition expressionValues);
    mret (default [] (Items response))
  else
    let indexName :=
      if truthy (of_opt (userId filter)) then "UserIndex" else "GuildIndex" in
    let keyCondition :=
      if truthy (of_opt (userId filter))
      then KeyAnd (KeyEq "userId" ":userId") (KeyEq "status" ":status")
      else KeyAnd (KeyEq "guildId" ":guildId") (KeyEq "status" ":status") in
    let expressionValues :=
      [(":status", VStr (status_str RUNNING)); (":now", VNum now)] in
    let expressionValues :=
      if truthy (of_opt (userId filter))
      then obj_set ":userId" (of_opt (userId filter)) expressionValues
      else obj_set ":guildId" (of_opt (guildId filter)) expressionValues in
    response ← send (QueryCommand (Some indexName) (Some keyCondition) expressionValues);
    let items := default [] (Items response) in
    if truthy (of_opt (channelId filter)) then
      lift (filter_array (channel_check filter) items)
    else mret items.

(** [cleanupExpiredSessions]: one scan, one delete per item found. *)
Definition cleanupExpiredSessions (date_now : Z) : M nat :=
  let now := date_now / 1000 in
  response ← send (ScanCommand
        (EAnd (AttrEq "status" (VStr (status_str RUNNING))) (AttrLt "expiresAt" now)));
  let expired := default [] (Items response) in
  _ ← for_each expired (fun item =>
        let sessionId := obj_get item "sessionId" in
        if truthy sessionId then deleteSession sessionId else mret tt);
  mret (length expired).

Section Restore.

(** [ToNumber] applied to a string is the StringToNumber operation of
    the language; it is not part of the repository and is left
    abstract. Stored timestamps are numbers. *)
Variable StringToNumber : string -> Number.

Definition ToNumber (v : Value) : Number :=
  match v with
  | VUndefined => NaN
  | VNull => Fin 0
  | VBool b => Fin (if b then 1 else 0)
  | VNum n => Fin n
  | VStr s => StringToNumber s
  | VObj _ => NaN
  end.

(** [restoreState]. The stored item is read as a
    [PersistedSessionState], through its [metadata] property. *)
Definition restoreState (now : Z) (sessionId : string) : M (option RestoredSession) :=
  response ← send (GetCommand sessionId);
  match Item response with
  | None => mret None
  | Some state =>
      startTime ← lift (metadata_field state "startTime");
      let elapsed := num_sub (Fin now) (ToNumber startTime) in
      expiresAt ← lift (metadata_field state "expiresAt");
      if num_gt (Fin now) (num_mul (ToNumber expiresAt) (Fin 1000)) then
        _ ← deleteSession (VStr sessionId); mret None
      else
        st ← lift (metadata_field state "status");
        mret (Some {| state := state;
                      resumable := strict_eq st (VStr (status_str RUNNING));
                      elapsed := elapsed |})
  end.

End Restore.

(** ** Well-formed tables *)

(** Every stored item carries its primary key, a non-empty string, in
    [sessionId]. *)
Definition wf_table (t : gmap string Obj) : Prop :=
  forall k item, t !! k = Some item -> k <> "" /\ obj_get item "sessionId" = VStr k.

(** [k] is an own property of [o]. *)
Definition has_own (o : Obj) (k : string) : Prop := In k (map fst o).

(** The [status] attribute stored under [id]; [VUndefined] when there
    is no record. *)
Definition stored_status (w : World) (id : string) : Value :=
  obj_get (default [] (table w !! id)) "status".

(** Successive calls [updateStatusIf(id, s, RUNNING)], each with its own
    clock reading and target status, and what they return. *)
Fixpoint finalize_each (calls : list (Z * SessionStatus)) (id : string) (w : World)
  : list (Outcome bool) * World :=
  match calls with
  | [] => ([], w)
  | (now, s) :: calls' =>
      let r := updateStatusIf now id s RUNNING w in
      let rs := finalize_each calls' id (snd r) in
      (fst r :: fst rs, snd rs)
  end.

(** ** A sample session

    The scenario of the spec, section 8: session [s1] of user [u1],
    running, saved at 5000 ms with a time to live of 3600 s. *)

Definition empty_world : World := {| table := ∅; faults := []; log := [] |}.

Definition s1_state : PersistedSessionState :=
  {| metadata :=
       [("sessionId", VStr "s1"); ("userId", VStr "u1"); ("guildId", VStr "g1");
        ("channelId", VStr "c2"); ("status", VStr (status_str RUNNING));
        ("startTime", VNum 1000); ("lastUpdateTime", VNum 1000);
        ("expiresAt", VNum 3601)];
     thetaState := VObj [("step", VNum 2)];
     context := VObj [];
     error := VUndefined |}.

Definition s1_saved : World :=
  snd (saveState 5000 "s1" s1_state {| ttl := Some 3600; includeError := false |}
         empty_world).

(** The item [saveState] stores for it. *)
Definition s1_item : Obj :=
  [("sessionId", VStr "s1"); ("userId", VStr "u1"); ("guildId", VStr "g1");
   ("channelId", VStr "c2"); ("status", VStr "RUNNING");
   ("startTime", VNum 1000); ("lastUpdateTime", VNum 5000);
   ("expiresAt", VNum 3605); ("thetaState", VObj [("step", VNum 2)]);
   ("context", VObj [])].

(** A throttling error of the backend. *)
Definition throttling : Exn :=
  {| name := "ProvisionedThroughputExceededException"; code := None |}.

(** The same backend, about to fail the next command. *)
Definition s1_throttled : World :=
  {| table := table s1_saved; faults := [Some throttling]; log := log s1_saved |}.

(** The same backend, answering the next command with an error object
    of the older client generation, which carries the exception name in
    [code]. The client the source imports does not produce it. *)
Definition s1_legacy_refusal : World :=
  {| table := table s1_saved;
     faults := [Some {| name := "ConditionalCheckFailedException";
                        code := Some "ConditionalCheckFailedException" |}];
     log := log s1_saved |}.

(** The same session saved with a time to live of zero. *)
Definition s1_saved_ttl0 : World :=
  snd (saveState 5000 "s1" s1_state {| ttl := Some 0; includeError := false |}
         empty_world).

(** A record of the same user that carries its metadata both at the top
    level, where the indexes and conditions read it, and under
    [metadata], where [restoreState] and the channel filter read it. Its
    [expiresAt], 5 s, has passed at any later clock reading. No operation
    of the manager stores a record of this shape; it stands for one put
    into the table by another writer. *)
Definition s2_metadata : Obj :=
  [("sessionId", VStr "s2"); ("userId", VStr "u1"); ("guildId", VStr "g1");
   ("channelId", VStr "c2"); ("status", VStr "RUNNING");
   ("startTime", VNum 1000); ("lastUpdateTime", VNum 2000);
   ("expiresAt", VNum 5)].

Definition s2_item : Obj :=
  s2_metadata ++ [("metadata", VObj s2_metadata);
                  ("thetaState", VObj [("step", VNum 1)]); ("context", VObj [])].

Definition s2_stored : World :=
  {| table := {[ "s2" := s2_item ]}; faults := []; log := [] |}.

(** ** Selection criteria of [getPendingSessions] *)

(** The filter names a user or a guild. *)
Definition scoped (filter : PendingSessionsFilter) : Prop :=
  truthy (of_opt (userId filter)) = true \/ truthy (of_opt (guildId filter)) = true.

(** The item has the [userId] asked for (the [guildId] when no [userId]
    is given) and the status asked for, RUNNING by default. *)
Definition matches_index (filter : PendingSessionsFilter) (item : Obj) : Prop :=
  (if truthy (of_opt (userId filter))
   then obj_get item "userId" = of_opt (userId filter)
   else obj_get item "guildId" = of_opt (guildId filter)) /\
  obj_get item "status" = VStr (status_str (default RUNNING (status filter))).

(** The in-memory channel filter is reached: a [channelId] is given and
    no [status]. *)
Definition post_filtered (filter : PendingSessionsFilter) : bool :=
  negb (truthy (status_value (status filter))) && truthy (of_opt (channelId filter)).

(** The backend after a command that went out and wrote nothing. *)
Definition read_only (c : Command) (w : World) : World :=
  {| table := table w; faults := tail (faults w); log := log w ++ [c] |}.

(** The query [getPendingSessions] sends for a scoped filter, on either
    path: by user when a [userId] is given, by guild otherwise, for the
    status asked for, RUNNING by default. The clock reading travels as the
    value [:now]. *)
Definition pending_query (date_now : Z) (filter : PendingSessionsFilter) : Command :=
  let values :=
    [(":status", VStr (status_str (default RUNNING (status filter))));
     (":now", VNum (date_now / 1000))] in
  if truthy (of_opt (userId filter))
  then QueryCommand (Some "UserIndex")
         (Some (KeyAnd (KeyEq "userId" ":userId") (KeyEq "status" ":status")))
         (obj_set ":userId" (of_opt (userId filter)) values)
  else QueryCommand (Some "GuildIndex")
         (Some (KeyAnd (KeyEq "guildId" ":guildId") (KeyEq "status" ":status")))
         (obj_set ":guildId" (of_opt (guildId filter)) values).

(** ** What the sweep is after *)

(** A record stored with status RUNNING and with an [expiresAt], a
    number of seconds, strictly below the clock reading [now_s]. *)
Definition expired_running (now_s : Z) (item : Obj) : bool :=
  strict_eq (obj_get item "status") (VStr (status_str RUNNING)) &&
  match obj_get item "expiresAt" with
  | VNum e => e <? now_s
  | _ => false
  end.

(** Three sessions of which only [a] is running and expired at 100 s:
    [b] is running with its expiry ahead, [c] has expired but is
    completed. *)
Definition sweep_item (id st : string) (expiresAt : Z) : Obj :=
  [("sessionId", VStr id); ("userId", VStr "u1"); ("status", VStr st);
   ("startTime", VNum 0); ("lastUpdateTime", VNum 0); ("expiresAt", VNum expiresAt)].

Definition sweep_world : World :=
  {| table := <["a" := sweep_item "a" "RUNNING" 50]>
                (<["b" := sweep_item "b" "RUNNING" 200]>
                  {[ "c" := sweep_item "c" "COMPLETED" 50 ]});
     faults := [];
     log := [] |}.

(** A command that keeps a table well formed: it writes under a
    non-empty key and does not assign [sessionId]. *)
Definition safe_command (c : Command) : Prop :=
  match c with
  | PutCommand item => obj_get item "sessionId" <> VStr ""
  | UpdateCommand k sets _ => k <> "" /\ forall a v, In (a, v) sets -> a <> "sessionId"
  | _ => True
  end.

(** ** What [saveState] stores *)

(** The [Item] of the [PutCommand] that [saveState] sends. *)
Definition put_item (now : Z) (sessionId : string) (st : PersistedSessionState)
    (options : SaveStateOptions) : Obj :=
  obj_set "error" (if includeError options then error st else VUndefined)
    (obj_set "context" (context st)
      (obj_set "thetaState" (thetaState st)
        (obj_set "expiresAt" (VNum (now / 1000 + default DEFAULT_TTL_SECONDS (ttl options)))
          (obj_set "lastUpdateTime" (VNum now)
            (obj_set "sessionId" (VStr sessionId) (metadata st)))))).

(** The same item as the table keeps it. *)
Definition saved_item (now : Z) (sessionId : string) (st : PersistedSessionState)
    (options : SaveStateOptions) : Obj :=
  marshall (put_item now sessionId st options).

(** ** Ways of speaking about a call *)

(** The call throws [e] and leaves the table as it was. *)
Definition fails_with {A} (m : M A) (w : World) (e : Exn) : Prop :=
  fst (m w) = Throw e /\ table (snd (m w)) = table w.

(** The computation keeps a well-formed table well formed, whatever the
    backend does. *)
Definition preserves_wf {A} (m : M A) : Prop :=
  forall w, wf_table (table w) -> wf_table (table (snd (m w))).

(** An optional string as the code treats it: the empty string counts
    as not supplied. *)
Definition supplied (o : option string) : option string :=
  if truthy (of_opt o) then o else None.

(** ** Table initialisation ([initializeTable])

    The control plane of the backend: which tables exist and with what
    schema. Like the data plane it is an external collaborator; a
    describe fails with [ResourceNotFoundException] when the table does
    not exist, a create fails with [ResourceInUseException] when it
    does. The schema of a table that does not exist yet is validated
    before it is created: the attributes it defines are exactly those
    its key schemas use. *)

Module Index.
Record t : Type :=
  { IndexName : string;
    KeySchema : list (string * string);
    ProjectionType : string }.
End Index.

(** The input of a [CreateTableCommand]. *)
Record CreateTableInput : Type :=
  { TableName : string;
    AttributeDefinitions : list (string * string);
    KeySchema : list (string * string);
    GlobalSecondaryIndexes : list Index.t;
    BillingMode : string }.

Inductive ControlCommand : Type :=
| DescribeTableCommand (TableName : string)
| CreateTableCommand (input : CreateTableInput).

Record Account : Type :=
  { tables : gmap string CreateTableInput;
    control_faults : list (option Exn);
    control_log : list ControlCommand;
    console : list string }.

Definition ResourceNotFoundException : Exn :=
  {| name := "ResourceNotFoundException"; code := None |}.

Definition ResourceInUseException : Exn :=
  {| name := "ResourceInUseException"; code := None |}.

(** The attributes used as keys, by the table or by one of its indexes. *)
Definition key_attributes (input : CreateTableInput) : list string :=
  (KeySchema input).*1 ++
  flat_map (fun i => (Index.KeySchema i).*1) (GlobalSecondaryIndexes input).

(** Every defined attribute is a key of the table or of an index, and
    every key is defined. *)
Definition schema_valid (input : CreateTableInput) : bool :=
  forallb (fun a => existsb (String.eqb a) (key_attributes input))
          (AttributeDefinitions input).*1 &&
  forallb (fun k => existsb (String.eqb k) (AttributeDefinitions input).*1)
          (key_attributes input).

(** [await client.send(c)]. *)
Definition client_send (c : ControlCommand) (a : Account) : Outcome unit * Account :=
  let sent ts :=
    {| tables := ts; control_faults := tail (control_faults a);
       control_log := control_log a ++ [c]; console := console a |} in
  match control_faults a with
  | Some e :: _ => (Throw e, sent (tables a))
  | _ =>
      match c with
      | DescribeTableCommand n =>
          match tables a !! n with
          | Some _ => (Return tt, sent (tables a))
          | None => (Throw ResourceNotFoundException, sent (tables a))
          end
      | CreateTableCommand input =>
          match tables a !! TableName input with
          | Some _ => (Throw ResourceInUseException, sent (tables a))
          | None =>
              if schema_valid input
              then (Return tt, sent (<[TableName input := input]> (tables a)))
              else (Throw ValidationException, sent (tables a))
          end
      end
  end.

(** [console.log(line)]. *)
Definition console_log (line : string) (a : Account) : Account :=
  {| tables := tables a; control_faults := control_faults a;
     control_log := control_log a; console := console a ++ [line] |}.

(** [process.env.SESSIONS_TABLE_NAME || "clawdbot-sessions"]. *)
Definition SESSIONS_TABLE (env_SESSIONS_TABLE_NAME : option string) : string :=
  match env_SESSIONS_TABLE_NAME with
  | Some n => if truthy (VStr n) then n else "clawdbot-sessions"
  | None => "clawdbot-sessions"
  end.

(** The table [initializeTable] asks for. *)
Definition sessions_table_input (name : string) : CreateTableInput :=
  {| TableName := name;
     AttributeDefinitions :=
       [("sessionId", "S"); ("userId", "S"); ("guildId", "S"); ("status", "S");
        ("expiresAt", "N")];
     KeySchema := [("sessionId", "HASH")];
     GlobalSecondaryIndexes :=
       [ {| Index.IndexName := "UserIndex";
            Index.KeySchema := [("userId", "HASH"); ("status", "RANGE")];
            Index.ProjectionType := "ALL" |};
         {| Index.IndexName := "GuildIndex";
            Index.KeySchema := [("guildId", "HASH"); ("status", "RANGE")];
            Index.ProjectionType := "ALL" |} ];
     BillingMode := "PAY_PER_REQUEST" |}.

(** [initializeTable]: describe the table; on any error, create it. *)
Definition initializeTable (env_SESSIONS_TABLE_NAME : option string) (a : Account)
  : Outcome unit * Account :=
  let name := SESSIONS_TABLE env_SESSIONS_TABLE_NAME in
  match client_send (DescribeTableCommand name) a with
  | (Return _, a1) =>
      (Return tt, console_log ("[SessionManager] Table " ++ name ++ " exists") a1)
  | (Throw _, a1) =>
      let a2 := console_log ("[SessionManager] Creating table " ++ name) a1 in
      match client_send (CreateTableCommand (sessions_table_input name)) a2 with
      | (Return _, a3) =>
          (Return tt, console_log ("[SessionManager] Table " ++ name ++ " created") a3)
      | (Throw e, a3) => (Throw e, a3)
      end
  end.

(** The attributes a key condition constrains, in order. *)
Fixpoint expr_attrs (e : KeyCondition) : list string :=
  match e with
  | KeyEq a _ => [a]
  | KeyAnd a b => expr_attrs a ++ expr_attrs b
  end.

(** The query a command is, if it is one: the index and the attributes
    of its key condition. *)
Definition query_shape (c : Command) : option (string * list string) :=
  match c with
  | QueryCommand (Some idx) (Some e) _ => Some (idx, expr_attrs e)
  | _ => None
  end.

(** The index of that name in a schema. *)
Definition find_index (name : string) (input : CreateTableInput) : option Index.t :=
  List.find (fun i => String.eqb (Index.IndexName i) name) (GlobalSecondaryIndexes input).

(** An account without tables. *)
Definition empty_account : Account :=
  {| tables := ∅; control_faults := []; control_log := []; console := [] |}.


(** ** Strings of the GitHub service and of the command handler

    The source further holds [GitHubService] (github-service.ts) and the
    [/miyabi] command handler (commands-miyabi.ts). Their strings are
    sequences of UTF-16 code units, so that [length], [substring] and the
    character classes of the regular expressions are those of the
    language. *)

Abbreviation JsString := (list N).

(** An ASCII literal of the source. *)
Definition lit (s : string) : JsString := map N_of_ascii (list_ascii_of_string s).

(** The class [\s] of a regular expression, which is also what [trim]
    strips: white space and line terminators. *)
Definition is_whitespace (c : N) : bool :=
  existsb (N.eqb c)
    [9; 10; 11; 12; 13; 32; 160; 5760; 8192; 8193; 8194; 8195; 8196; 8197; 8198;
     8199; 8200; 8201; 8202; 8232; 8233; 8239; 8287; 12288; 65279]%N.

Fixpoint drop_while (p : N -> bool) (s : JsString) : JsString :=
  match s with
  | [] => []
  | c :: s' => if p c then drop_while p s' else s
  end.

(** [s.trim()]. *)
Definition trim (s : JsString) : JsString :=
  rev (drop_while is_whitespace (rev (drop_while is_whitespace s))).

(** [s.substring(0, n)]. *)
Definition substring0 (n : nat) (s : JsString) : JsString := firstn n s.

Definition LT : N := 60%N.
Definition GT : N := 62%N.

(** Some [>] occurs in the string. *)
Definition has_gt (s : JsString) : bool := existsb (N.eqb GT) s.

(** [s.replace(/<[^>]*>/g, "")]. A match starts at a [<] that has a [>]
    somewhere after it and runs to the first such [>]; the search goes on
    after the match. [in_tag] says that the scan is inside a match. *)
Fixpoint strip_tags (in_tag : bool) (s : JsString) : JsString :=
  match s with
  | [] => []
  | c :: s' =>
      if in_tag then
        if N.eqb c GT then strip_tags false s' else strip_tags true s'
      else if N.eqb c LT && has_gt s' then strip_tags true s'
      else c :: strip_tags false s'
  end.

(** [s.replace(/[<>]/g, "")]. *)
Definition strip_angles (s : JsString) : JsString :=
  List.filter (fun c => negb (N.eqb c LT || N.eqb c GT)) s.

(** [GitHubService.sanitizeTitle]. *)
Definition sanitizeTitle (title : JsString) : JsString :=
  substring0 200 (trim (strip_angles (strip_tags false title))).

Definition BACKSLASH : N := 92%N.

(** The class [[_*[\]~`>#+=|{}.!\\-]] of [escapeMarkdown]. *)
Definition markdown_special (c : N) : bool :=
  existsb (N.eqb c)
    [95; 42; 91; 93; 126; 96; 62; 35; 43; 61; 124; 123; 125; 46; 33; 92; 45]%N.

(** [GitHubService.escapeMarkdown]: [text.replace(/(class)/g, "\\$&")]. *)
Definition escapeMarkdown (text : JsString) : JsString :=
  flat_map (fun c => if markdown_special c then [BACKSLASH; c] else [c]) text.

(** Reading an escaped text back: a backslash stands for the code unit
    that follows it. *)
Fixpoint unescape (s : JsString) : JsString :=
  match s with
  | [] => []
  | c :: s' =>
      if N.eqb c BACKSLASH then
        match s' with
        | d :: s'' => d :: unescape s''
        | [] => [c]
        end
      else c :: unescape s'
  end.

(** ** The [/miyabi] command handler (commands-miyabi.ts) *)

Fixpoint startsWith (s searchString : JsString) : bool :=
  match searchString, s with
  | [], _ => true
  | p :: ps, c :: cs => N.eqb p c && startsWith cs ps
  | _ :: _, [] => false
  end.

(** [s.split(/\s+/)]: the pieces between maximal runs of white space;
    a run at either end leaves an empty piece there. [in_run] says that
    the scan is inside a run. *)
Fixpoint split_go (in_run : bool) (s : JsString) : list JsString :=
  match s with
  | [] => [[]]
  | c :: s' =>
      if is_whitespace c then
        if in_run then split_go true s' else [] :: split_go true s'
      else
        match split_go false s' with
        | piece :: pieces => (c :: piece) :: pieces
        | [] => [[c]]
        end
  end.

Definition split_whitespace (s : JsString) : list JsString := split_go false s.

(** [parts.join(" ")]. *)
Fixpoint join_space (parts : list JsString) : JsString :=
  match parts with
  | [] => []
  | [x] => x
  | x :: rest => x ++ 32%N :: join_space rest
  end.

(** [String(n)] for a length. *)
Definition decimal (n : nat) : JsString := lit (NilEmpty.string_of_uint (Nat.to_uint n)).

Definition NEWLINE : JsString := [10%N].
Definition QUOTE : JsString := [34%N].
Definition CROSS_MARK : JsString := [10060%N].          (* U+274C *)
Definition CHECK_MARK : JsString := [9989%N].           (* U+2705 *)
Definition LINK_SIGN : JsString := [55357%N; 56599%N].  (* U+1F517 *)

(** A string is truthy when it is not empty. *)
Definition nonempty (s : JsString) : bool :=
  match s with [] => false | _ :: _ => true end.

Fixpoint js_eqb (a b : JsString) : bool :=
  match a, b with
  | [], [] => true
  | x :: a', y :: b' => N.eqb x y && js_eqb a' b'
  | _, _ => false
  end.

(** [list.includes(s)]. *)
Definition includes (l : list JsString) (s : JsString) : bool := existsb (js_eqb s) l.

(** What a service call settles to; a rejection is seen through
    [error instanceof Error ? error.message : String(error)]. *)
Inductive Settled : Type :=
| Resolved (value : JsString)
| Rejected (errorMsg : JsString).

(** What the handler is given besides the command: [toLowerCase] of the
    language, and the two services. Both act on the outside world
    ([GitHubService.createIssue] through the GitHub API,
    [TmuxServiceLocal.getStatus] and [sendToAgent] through [tmux] child
    processes), so the handler takes their answers as parameters and is
    verified for every answer. Each service answer includes the
    construction of the service. *)
Record Services : Type :=
  { toLowerCase : JsString -> JsString;
    createIssue : JsString -> Settled;
    getStatus : Settled;
    sendToAgent : JsString -> JsString -> Settled }.

(** What a call of the handler does besides returning. *)
Inductive Effect : Type :=
| CreateIssue (title : JsString)
| GetStatus
| SendToAgent (agent cmd : JsString)
| ConsoleError (label detail : JsString).

Record Reply : Type := { text : JsString }.

Record CommandHandlerResult : Type :=
  { shouldContinue : bool;
    reply : Reply }.

Definition replying (t : JsString) : CommandHandlerResult :=
  {| shouldContinue := false; reply := {| text := t |} |}.

Definition MAX_TITLE_LENGTH : nat := 500.

Definition handleMiyabiIssue (sv : Services) (args : list JsString)
  : CommandHandlerResult * list Effect :=
  let title := trim (join_space args) in
  if negb (nonempty title) then
    (replying (CROSS_MARK ++ lit " Missing issue title." ++ NEWLINE ++ NEWLINE
               ++ lit "Usage: /miyabi issue <title>" ++ NEWLINE
               ++ lit "Example: /miyabi issue Fix authentication bug in login flow"), [])
  else if (MAX_TITLE_LENGTH <? length title)%nat then
    (replying (CROSS_MARK ++ lit " Title too long (" ++ decimal (length title)
               ++ lit " characters). Maximum: " ++ decimal MAX_TITLE_LENGTH
               ++ lit " characters."), [])
  else
    match createIssue sv title with
    | Resolved issueUrl =>
        (replying (CHECK_MARK ++ lit " GitHub Issue created successfully!"
                   ++ NEWLINE ++ NEWLINE ++ LINK_SIGN ++ lit " " ++ issueUrl),
         [CreateIssue title])
    | Rejected errorMsg =>
        (replying (CROSS_MARK ++ lit " Failed to create GitHub issue."
                   ++ NEWLINE ++ NEWLINE ++ lit "Error: " ++ errorMsg),
         [CreateIssue title;
          ConsoleError (lit "Failed to create GitHub issue:") errorMsg])
    end.

Definition handleMiyabiStatus (sv : Services) : CommandHandlerResult * list Effect :=
  match getStatus sv with
  | Resolved status => (replying status, [GetStatus])
  | Rejected errorMsg =>
      (replying (CROSS_MARK ++ lit " Failed to get agent status."
                 ++ NEWLINE ++ NEWLINE ++ lit "Error: " ++ errorMsg ++ NEWLINE ++ NEWLINE
                 ++ lit "Make sure the tmux session is running: tmux attach -t miyabi"),
       [GetStatus; ConsoleError (lit "Failed to get miyabi status:") errorMsg])
  end.

Definition validAgents : list JsString :=
  [lit "conductor"; lit "shikirun"; lit "kaede"; lit "codegen"; lit "sakura";
   lit "review"; lit "tsubaki"; lit "pr"; lit "botan"; lit "deploy"].

Definition MAX_COMMAND_LENGTH : nat := 1000.

Definition handleMiyabiAgent (sv : Services) (args : list JsString)
  : CommandHandlerResult * list Effect :=
  let agent := default [] (head args) in
  let cmd := join_space (skipn 1 args) in
  if negb (nonempty agent) then
    (replying (CROSS_MARK ++ lit " Missing agent name." ++ NEWLINE ++ NEWLINE
               ++ lit "Valid agents: conductor, kaede, sakura, tsubaki, botan"
               ++ NEWLINE ++ NEWLINE
               ++ lit "Usage: /miyabi agent <name> <command>"), [])
  else if negb (nonempty cmd) then
    (replying (CROSS_MARK ++ lit " Missing command." ++ NEWLINE ++ NEWLINE
               ++ lit "Usage: /miyabi agent <name> <command>" ++ NEWLINE
               ++ lit "Example: /miyabi agent conductor Implement the login feature"), [])
  else if negb (includes validAgents (toLowerCase sv agent)) then
    (replying (CROSS_MARK ++ lit " Unknown agent: " ++ QUOTE ++ agent ++ QUOTE
               ++ NEWLINE ++ NEWLINE
               ++ lit "Valid agents: conductor, kaede, sakura, tsubaki, botan"), [])
  else if (MAX_COMMAND_LENGTH <? length cmd)%nat then
    (replying (CROSS_MARK ++ lit " Command too long (" ++ decimal (length cmd)
               ++ lit " characters). Maximum: " ++ decimal MAX_COMMAND_LENGTH
               ++ lit " characters."), [])
  else
    match sendToAgent sv agent cmd with
    | Resolved result =>
        let displayCmd :=
          if (100 <? length cmd)%nat then (substring0 100 cmd ++ lit "...")%list else cmd in
        (replying (result ++ NEWLINE ++ NEWLINE ++ lit "```" ++ NEWLINE
                   ++ lit "Agent: " ++ agent ++ NEWLINE
                   ++ lit "Command: " ++ displayCmd ++ NEWLINE ++ lit "```"),
         [SendToAgent agent cmd])
    | Rejected errorMsg =>
        (replying (CROSS_MARK ++ lit " Failed to send command to " ++ agent ++ lit "."
                   ++ NEWLINE ++ NEWLINE ++ lit "Error: " ++ errorMsg
                   ++ NEWLINE ++ NEWLINE
                   ++ lit "Make sure the tmux session is running: tmux attach -t miyabi"),
         [SendToAgent agent cmd;
          ConsoleError (lit "Failed to send command to agent:") errorMsg])
    end.

(** [handleMiyabiCommand]. The sub-handlers catch every rejection of
    the services themselves, so the [catch] around the [switch] has
    nothing to catch and does not appear. *)
Definition handleMiyabiCommand (sv : Services) (commandBody : JsString)
  : option CommandHandlerResult * list Effect :=
  if negb (startsWith commandBody (lit "/miyabi")) then (None, [])
  else
    let parts := split_whitespace commandBody in
    let action := option_map (toLowerCase sv) (nth_error parts 1) in
    if negb (nonempty (default [] action)) then
      (Some (replying
               (CROSS_MARK ++ lit " Missing action. Use: /miyabi issue|status|agent"
                ++ NEWLINE ++ NEWLINE ++ lit "Examples:" ++ NEWLINE
                ++ lit "  /miyabi issue Fix the login bug" ++ NEWLINE
                ++ lit "  /miyabi status" ++ NEWLINE
                ++ lit "  /miyabi agent conductor test message")), [])
    else
      let action := default [] action in
      if js_eqb action (lit "issue") then
        let r := handleMiyabiIssue sv (skipn 2 parts) in (Some (fst r), snd r)
      else if js_eqb action (lit "status") then
        let r := handleMiyabiStatus sv in (Some (fst r), snd r)
      else if js_eqb action (lit "agent") then
        let r := handleMiyabiAgent sv (skipn 2 parts) in (Some (fst r), snd r)
      else
        (Some (replying (CROSS_MARK ++ lit " Unknown action: " ++ QUOTE ++ action ++ QUOTE
                         ++ lit ". Valid actions: issue, status, agent")), []).

(** A lower-casing of the ASCII letters, for examples. *)
Definition ascii_lower (s : JsString) : JsString :=
  map (fun c => if (N.leb 65 c && N.leb c 90)%N then (c + 32)%N else c) s.

(** Services for examples: issues are created, the tmux session is not
    running. *)
Definition sample_services : Services :=
  {| toLowerCase := ascii_lower;
     createIssue := fun _ => Resolved (lit "https://github.com/o/r/issues/1");
     getStatus := Rejected (lit "tmux not running");
     sendToAgent := fun _ _ => Rejected (lit "tmux not running") |}.

(** White space other than the plain space does not occur. *)
Definition only_plain_spaces (s : JsString) : Prop :=
  Forall (fun c => is_whitespace c = true -> c = 32%N) s.

(** The effect is a call of one of the two services. *)
Definition is_service_call (e : Effect) : bool :=
  match e with
  | CreateIssue _ | GetStatus | SendToAgent _ _ => true
  | ConsoleError _ _ => false
  end.

(** * Properties *)

(** ** Objects *)

Lemma obj_get_set_eq k v o : obj_get (obj_set k v o) k = v.
Proof.
  induction o as [|[k' v'] o IH]; simpl.
  - by rewrite String.eqb_refl.
  - destruct (String.eqb k k') eqn:E; simpl; rewrite ?String.eqb_refl, ?E; done.
Qed.

Lemma obj_get_set_ne k k' v o : k <> k' -> obj_get (obj_set k v o) k' = obj_get o k'.
Proof.
  intros Hne. induction o as [|[k0 v0] o IH]; simpl.
  - destruct (String.eqb_spec k' k); congruence.
  - destruct (String.eqb_spec k k0) as [->|Hk]; simpl.
    + destruct (String.eqb_spec k' k0); congruence.
    + destruct (String.eqb_spec k' k0); congruence.
Qed.

Lemma obj_get_absent o k : ~ has_own o k -> obj_get o k = VUndefined.
Proof.
  unfold has_own. induction o as [|[k' v'] o IH]; simpl; [done|].
  intros H. destruct (String.eqb_spec k k') as [->|Hk]; [tauto|].
  apply IH. tauto.
Qed.

Lemma has_own_set o k k' v : has_own (obj_set k v o) k' -> k' = k \/ has_own o k'.
Proof.
  unfold has_own. induction o as [|[k0 v0] o IH]; simpl.
  - intros [<-|[]]. by left.
  - destruct (String.eqb_spec k k0) as [->|Hk]; simpl.
    + intros [<-|H]; auto.
    + intros [<-|H]; auto. destruct (IH H); auto.
Qed.

Lemma has_own_marshall o k : has_own (marshall o) k -> has_own o k.
Proof.
  unfold has_own, marshall. rewrite !in_map_iff.
  intros [kv [<- H]]. apply filter_In in H as [H _]. eauto.
Qed.

(** Marshalling removes only properties that read as [undefined]
    anyway, when no property is listed twice. *)
Lemma obj_get_marshall o k :
  NoDup (map fst o) -> obj_get (marshall o) k = obj_get o k.
Proof.
  induction o as [|[k' v'] o IH]; simpl; [done|].
  intros Hnd. apply NoDup_cons in Hnd as [Hnotin Hnd]. specialize (IH Hnd).
  destruct (is_undefined v') eqn:Eu; simpl.
  - destruct (String.eqb_spec k k') as [->|Hk]; [|done].
    destruct v'; try discriminate. rewrite IH.
    apply obj_get_absent. unfold has_own. by rewrite <- list_elem_of_In.
  - by rewrite IH.
Qed.

(** ** The backend *)

Lemma send_through c w :
  next_fault w = None ->
  send c w = (fst (exec c (table w)),
              {| table := snd (exec c (table w));
                 faults := tail (faults w);
                 log := log w ++ [c] |}).
Proof. intros H. unfold send. by rewrite H. Qed.

Lemma send_fault c w e :
  next_fault w = Some e ->
  send c w = (Throw e,
              {| table := table w; faults := tail (faults w); log := log w ++ [c] |}).
Proof. intros H. unfold send. by rewrite H. Qed.

Lemma next_fault_nil w : faults w = [] -> next_fault w = None.
Proof. unfold next_fault. by intros ->. Qed.

Lemma attr_eq_str x s : attr_eq x (VStr s) = true <-> x = VStr s.
Proof.
  destruct x; simpl; try (split; [discriminate|congruence]).
  rewrite String.eqb_eq. split; congruence.
Qed.

Lemma status_str_inj s1 s2 : status_str s1 = status_str s2 -> s1 = s2.
Proof. destruct s1, s2; simpl; congruence. Qed.

Lemma status_value_truthy s : truthy (status_value (Some s)) = true.
Proof. by destruct s. Qed.

(** ** The table stays well formed *)

Lemma obj_get_marshall_defined o k v :
  obj_get o k = v -> v <> VUndefined -> obj_get (marshall o) k = v.
Proof.
  intros Hget Hv. induction o as [|[k' v'] o IH]; simpl in *; [congruence|].
  destruct (String.eqb_spec k k') as [->|Hk].
  - subst v'. destruct v; simpl; rewrite ?String.eqb_refl; congruence.
  - destruct (is_undefined v'); simpl; [by apply IH|].
    destruct (String.eqb_spec k k'); [congruence | by apply IH].
Qed.

Lemma apply_sets_other sets item k :
  (forall a v, In (a, v) sets -> a <> k) ->
  obj_get (apply_sets sets item) k = obj_get item k.
Proof.
  unfold apply_sets. revert item.
  induction sets as [|[a v] sets IH]; intros item Hsets; simpl; [done|].
  rewrite IH by (intros a' v' Hin; apply (Hsets a' v'); by right).
  apply obj_get_set_ne. apply (Hsets a v). by left.
Qed.

Lemma exec_wf c t :
  safe_command c -> wf_table t -> wf_table (snd (exec c t)).
Proof.
  intros Hc Hwf. destruct c as [k|item|k sets cond|key|idx kc vals|e]; simpl; try done.
  - destruct (obj_get item "sessionId") as [| | | |k|] eqn:Ek; simpl; try done.
    intros j it. rewrite lookup_insert. case_decide as Hj.
    + subst j. intros [= <-]. split; [simpl in Hc; congruence|].
      by apply obj_get_marshall_defined.
    + apply Hwf.
  - destruct Hc as [Hk Hsets].
    destruct (match cond with Some e => _ | None => true end); simpl; [|done].
    intros j it. rewrite lookup_insert. case_decide as Hj.
    + subst j. intros [= <-]. split; [done|].
      rewrite (apply_sets_other sets _ "sessionId" Hsets).
      destruct (t !! k) as [it0|] eqn:E0; simpl; [|done]. by apply (Hwf k).
    + apply Hwf.
  - destruct key; simpl; try done.
    intros j it Hj. apply lookup_delete_Some in Hj as [_ Hj]. by apply Hwf.
  - destruct idx, kc as [k|]; try done.
    destruct (all_used vals k); [|done]. by destruct (substitute vals k).
Qed.

Lemma send_wf c w :
  safe_command c -> wf_table (table w) -> wf_table (table (snd (send c w))).
Proof.
  intros Hc Hwf. unfold send. destruct (next_fault w); simpl; [done|].
  by apply exec_wf.
Qed.

Lemma bind_ret_world {A B} (m : M A) (b : B) w :
  snd ((_ ← m; mret b) w) = snd (m w).
Proof. unfold mbind, M_bind. by destruct (m w) as [[a|e] w']. Qed.

Lemma saveState_wf now id st options w :
  id <> "" -> wf_table (table w) ->
  wf_table (table (snd (saveState now id st options w))).
Proof.
  intros Hid Hwf. unfold saveState. rewrite bind_ret_world.
  apply send_wf; [|done]. simpl.
  rewrite !obj_get_set_ne by discriminate. rewrite obj_get_set_eq. congruence.
Qed.

Lemma updateStatus_wf now id s w :
  id <> "" -> wf_table (table w) ->
  wf_table (table (snd (updateStatus now id s w))).
Proof.
  intros Hid Hwf. unfold updateStatus. rewrite bind_ret_world.
  apply send_wf; [|done]. split; [done|].
  intros a v [[= <- <-]|[[= <- <-]|[]]]; discriminate.
Qed.

Lemma updateStatusIf_wf now id s expected w :
  id <> "" -> wf_table (table w) ->
  wf_table (table (snd (updateStatusIf now id s expected w))).
Proof.
  intros Hid Hwf. unfold updateStatusIf, try_catch, mbind, M_bind.
  set (c := UpdateCommand _ _ _).
  assert (Hs : wf_table (table (snd (send c w)))).
  { apply send_wf; [|done]. split; [done|].
    intros a v [[= <- <-]|[[= <- <-]|[]]]; discriminate. }
  destruct (send c w) as [[r|err] w']; simpl in *; [done|].
  by destruct (bool_decide _).
Qed.

Lemma deleteSession_wf key w :
  wf_table (table w) -> wf_table (table (snd (deleteSession key w))).
Proof.
  intros Hwf. unfold deleteSession. rewrite bind_ret_world. by apply send_wf.
Qed.

(** ** Conditional status transitions *)

Section UpdateStatusIf.

Variables (now : Z) (id : string) (newStatus expected : SessionStatus).

Let cmd : Command :=
  UpdateCommand id
    [("status", VStr (status_str newStatus)); ("lastUpdateTime", VNum now)]
    (Some (AttrEq "status" (VStr (status_str expected)))).

Lemma updateStatusIf_applied w item :
  next_fault w = None ->
  table w !! id = Some item ->
  obj_get item "status" = VStr (status_str expected) ->
  updateStatusIf now id newStatus expected w =
    (Return true,
     {| table := <[id := obj_set "lastUpdateTime" (VNum now)
                           (obj_set "status" (VStr (status_str newStatus)) item)]>
                   (table w);
        faults := tail (faults w);
        log := log w ++ [cmd] |}).
Proof.
  intros Hf Hit Hst. unfold updateStatusIf, try_catch, mbind, M_bind.
  rewrite (send_through _ _ Hf). simpl. rewrite Hit. simpl.
  apply attr_eq_str in Hst. rewrite Hst. reflexivity.
Qed.

Lemma updateStatusIf_refused w :
  next_fault w = None ->
  stored_status w id <> VStr (status_str expected) ->
  updateStatusIf now id newStatus expected w =
    (Throw ConditionalCheckFailedException,
     {| table := table w; faults := tail (faults w); log := log w ++ [cmd] |}).
Proof.
  intros Hf Hst. unfold updateStatusIf, try_catch, mbind, M_bind.
  rewrite (send_through _ _ Hf). simpl.
  destruct (attr_eq _ _) eqn:E.
  - apply attr_eq_str in E. contradiction.
  - reflexivity.
Qed.

Lemma updateStatusIf_caught w e :
  next_fault w = Some e ->
  code e = Some "ConditionalCheckFailedException" ->
  updateStatusIf now id newStatus expected w =
    (Return false,
     {| table := table w; faults := tail (faults w); log := log w ++ [cmd] |}).
Proof.
  intros Hf Hc. unfold updateStatusIf, try_catch, mbind, M_bind.
  rewrite (send_fault _ _ _ Hf). simpl.
  by rewrite bool_decide_eq_true_2.
Qed.

Lemma updateStatusIf_rethrown w e :
  next_fault w = Some e ->
  code e <> Some "ConditionalCheckFailedException" ->
  updateStatusIf now id newStatus expected w =
    (Throw e,
     {| table := table w; faults := tail (faults w); log := log w ++ [cmd] |}).
Proof.
  intros Hf Hc. unfold updateStatusIf, try_catch, mbind, M_bind.
  rewrite (send_fault _ _ _ Hf). simpl.
  by rewrite bool_decide_eq_false_2.
Qed.

End UpdateStatusIf.

(** Once the stored status is not [RUNNING], every further transition
    conditioned on [RUNNING] is refused by the table, nothing is written,
    and the refusal reaches the caller as the exception. *)
Lemma finalize_each_refused calls id w :
  faults w = [] ->
  stored_status w id <> VStr (status_str RUNNING) ->
  Forall (fun r => r = Throw ConditionalCheckFailedException)
         (fst (finalize_each calls id w)) /\
  table (snd (finalize_each calls id w)) = table w.
Proof.
  revert w. induction calls as [|[now s] calls IH]; intros w Hf Hst; simpl.
  - split; [constructor | done].
  - rewrite (updateStatusIf_refused now id s RUNNING w (next_fault_nil w Hf) Hst).
    simpl. set (w' := {| table := table w |}).
    destruct (IH w') as [Hall Htab].
    + subst w'; simpl. by rewrite Hf.
    + done.
    + split; [by constructor | done].
Qed.

(** C1. Finalization, as the code has it. A session is stored with
    status RUNNING and the backend is available. The two conditional
    writes [updateStatusIf(id, COMPLETED, RUNNING)] and
    [updateStatusIf(id, FAILED, RUNNING)] are applied one after the other,
    in either order ([first] is the one applied first). Then the first
    returns true and the stored status is its new status, for good: the
    table refuses the second write and every later one that expects
    RUNNING. But none of these calls returns false: the refusal is the
    exception ConditionalCheckFailedException, which has no [code], so the
    test [err.code === "ConditionalCheckFailedException"] fails and the
    exception is thrown to the caller. *)
Theorem finalization_loser_throws
    (w : World) (id : string) (item : Obj) (first second : SessionStatus)
    (now1 now2 : Z) (later : list (Z * SessionStatus)) :
  faults w = [] ->
  table w !! id = Some item ->
  obj_get item "status" = VStr (status_str RUNNING) ->
  (first = COMPLETED /\ second = FAILED) \/ (first = FAILED /\ second = COMPLETED) ->
  let r1 := updateStatusIf now1 id first RUNNING w in
  let r2 := updateStatusIf now2 id second RUNNING (snd r1) in
  let rs := finalize_each later id (snd r2) in
  fst r1 = Return true /\
  fst r2 = Throw ConditionalCheckFailedException /\
  stored_status (snd r2) id = VStr (status_str first) /\
  Forall (fun r => r = Throw ConditionalCheckFailedException) (fst rs) /\
  stored_status (snd rs) id = VStr (status_str first).
Proof.
  intros Hf Hit Hst Horder r1 r2 rs.
  assert (Hfirst : first <> RUNNING) by (destruct Horder as [[-> _]|[-> _]]; discriminate).
  pose proof (updateStatusIf_applied now1 id first RUNNING w item
                (next_fault_nil w Hf) Hit Hst) as E1.
  set (w1 := snd r1).
  assert (Hw1 : faults w1 = [] /\ stored_status w1 id = VStr (status_str first)).
  { subst w1 r1. rewrite E1. simpl. split; [by rewrite Hf|].
    unfold stored_status. simpl. rewrite lookup_insert_eq. simpl.
    rewrite obj_get_set_ne by discriminate. apply obj_get_set_eq. }
  destruct Hw1 as [Hf1 Hst1].
  assert (Hne1 : stored_status w1 id <> VStr (status_str RUNNING)).
  { rewrite Hst1. intros [=H]. by apply (status_str_inj first RUNNING) in H. }
  pose proof (updateStatusIf_refused now2 id second RUNNING w1
                (next_fault_nil w1 Hf1) Hne1) as E2.
  set (w2 := snd r2).
  assert (Hw2 : faults w2 = [] /\ table w2 = table w1).
  { subst w2 r2. fold w1. rewrite E2. simpl. by rewrite Hf1. }
  destruct Hw2 as [Hf2 Ht2].
  assert (Hst2 : stored_status w2 id = VStr (status_str first)).
  { unfold stored_status. rewrite Ht2. exact Hst1. }
  assert (Hne2 : stored_status w2 id <> VStr (status_str RUNNING)).
  { rewrite Hst2. intros [=H]. by apply (status_str_inj first RUNNING) in H. }
  destruct (finalize_each_refused later id w2 Hf2 Hne2) as [Hall Htab].
  repeat split.
  - subst r1. by rewrite E1.
  - subst r2. fold w1. by rewrite E2.
  - exact Hst2.
  - exact Hall.
  - subst rs. fold w2. unfold stored_status. rewrite Htab. exact Hst2.
Qed.

(** C2. The outcomes of [updateStatusIf], as the code has them. When the
    command goes through and the stored status equals [expected], it
    returns true and the stored status is [newStatus]. When the command
    goes through and the stored status differs from [expected] (or no
    record is stored), nothing is written and the call does not return
    false: it throws ConditionalCheckFailedException. When the backend
    fails with an error whose [code] is not
    ["ConditionalCheckFailedException"], that error is thrown to the
    caller. False is returned only for an error that carries that
    [code]. *)
Theorem updateStatusIf_outcomes
    (now : Z) (id : string) (newStatus expected : SessionStatus) (w : World) :
  let r := updateStatusIf now id newStatus expected w in
  (next_fault w = None ->
   stored_status w id = VStr (status_str expected) ->
   fst r = Return true /\
   stored_status (snd r) id = VStr (status_str newStatus)) /\
  (next_fault w = None ->
   stored_status w id <> VStr (status_str expected) ->
   fst r = Throw ConditionalCheckFailedException /\ table (snd r) = table w) /\
  (forall e, next_fault w = Some e ->
   code e <> Some "ConditionalCheckFailedException" ->
   fst r = Throw e /\ table (snd r) = table w) /\
  (forall e, next_fault w = Some e ->
   code e = Some "ConditionalCheckFailedException" ->
   fst r = Return false /\ table (snd r) = table w).
Proof.
  intros r. subst r. split_and!.
  - intros Hf Hst. unfold stored_status in Hst.
    destruct (table w !! id) as [item|] eqn:Hit; [|discriminate].
    rewrite (updateStatusIf_applied now id newStatus expected w item Hf Hit Hst).
    split; [done|].
    unfold stored_status. simpl. rewrite lookup_insert_eq. simpl.
    rewrite obj_get_set_ne by discriminate. apply obj_get_set_eq.
  - intros Hf Hst.
    by rewrite (updateStatusIf_refused now id newStatus expected w Hf Hst).
  - intros e Hf Hcode.
    by rewrite (updateStatusIf_rethrown now id newStatus expected w e Hf Hcode).
  - intros e Hf Hcode.
    by rewrite (updateStatusIf_caught now id newStatus expected w e Hf Hcode).
Qed.

Lemma s1_saved_table : table s1_saved !! "s1" = Some s1_item.
Proof. vm_compute. reflexivity. Qed.

Lemma finalization_loser_throws_witness :
  let r1 := updateStatusIf 6000 "s1" COMPLETED RUNNING s1_saved in
  let r2 := updateStatusIf 6001 "s1" FAILED RUNNING (snd r1) in
  let rs := finalize_each [(7000, CANCELLED); (8000, RUNNING)] "s1" (snd r2) in
  fst r1 = Return true /\
  fst r2 = Throw ConditionalCheckFailedException /\
  stored_status (snd r2) "s1" = VStr (status_str COMPLETED) /\
  Forall (fun r => r = Throw ConditionalCheckFailedException) (fst rs) /\
  stored_status (snd rs) "s1" = VStr (status_str COMPLETED).
Proof.
  apply (finalization_loser_throws s1_saved "s1" s1_item COMPLETED FAILED).
  - reflexivity.
  - vm_compute. reflexivity.
  - reflexivity.
  - left. split; reflexivity.
Defined.

Lemma updateStatusIf_outcomes_witness :
  (fst (updateStatusIf 6000 "s1" COMPLETED RUNNING s1_saved) = Return true /\
   stored_status (snd (updateStatusIf 6000 "s1" COMPLETED RUNNING s1_saved)) "s1"
     = VStr (status_str COMPLETED)) /\
  (fst (updateStatusIf 6000 "s1" COMPLETED PENDING s1_saved)
     = Throw ConditionalCheckFailedException /\
   table (snd (updateStatusIf 6000 "s1" COMPLETED PENDING s1_saved)) = table s1_saved) /\
  (fst (updateStatusIf 6000 "s1" COMPLETED RUNNING s1_throttled) = Throw throttling /\
   table (snd (updateStatusIf 6000 "s1" COMPLETED RUNNING s1_throttled))
     = table s1_throttled) /\
  (fst (updateStatusIf 6000 "s1" COMPLETED RUNNING s1_legacy_refusal) = Return false /\
   table (snd (updateStatusIf 6000 "s1" COMPLETED RUNNING s1_legacy_refusal))
     = table s1_legacy_refusal).
Proof.
  split; [|split; [|split]].
  - apply (proj1 (updateStatusIf_outcomes 6000 "s1" COMPLETED RUNNING s1_saved)).
    + reflexivity.
    + vm_compute. reflexivity.
  - apply (proj1 (proj2 (updateStatusIf_outcomes 6000 "s1" COMPLETED PENDING s1_saved))).
    + reflexivity.
    + vm_compute. discriminate.
  - apply (proj1 (proj2 (proj2
             (updateStatusIf_outcomes 6000 "s1" COMPLETED RUNNING s1_throttled)))).
    + reflexivity.
    + simpl. discriminate.
  - apply (proj2 (proj2 (proj2
             (updateStatusIf_outcomes 6000 "s1" COMPLETED RUNNING s1_legacy_refusal)))
             {| name := "ConditionalCheckFailedException";
                code := Some "ConditionalCheckFailedException" |}).
    + reflexivity.
    + reflexivity.
Defined.

(** ** Listing without a scope *)

Lemma getPendingSessions_rejected date_now filter w :
  truthy (of_opt (userId filter)) = false ->
  truthy (of_opt (guildId filter)) = false ->
  getPendingSessions date_now filter w = (Return [], w).
Proof. intros Hu Hg. unfold getPendingSessions. by rewrite Hu, Hg. Qed.

(** C6. Query safety. For a filter that supplies neither [userId] nor
    [guildId], [getPendingSessions] returns the empty sequence and leaves
    the backend as it was: no command, scan or query, is sent. *)
Theorem getPendingSessions_unscoped
    (date_now : Z) (filter : PendingSessionsFilter) (w : World) :
  userId filter = None ->
  guildId filter = None ->
  fst (getPendingSessions date_now filter w) = Return [] /\
  snd (getPendingSessions date_now filter w) = w /\
  log (snd (getPendingSessions date_now filter w)) = log w.
Proof.
  intros Hu Hg.
  rewrite (getPendingSessions_rejected date_now filter w); [done | |].
  - by rewrite Hu.
  - by rewrite Hg.
Qed.

Lemma getPendingSessions_unscoped_witness :
  fst (getPendingSessions 6000
         {| userId := None; guildId := None; channelId := Some "c2"; status := Some RUNNING |}
         s1_saved) = Return [] /\
  snd (getPendingSessions 6000
         {| userId := None; guildId := None; channelId := Some "c2"; status := Some RUNNING |}
         s1_saved) = s1_saved /\
  log (snd (getPendingSessions 6000
         {| userId := None; guildId := None; channelId := Some "c2"; status := Some RUNNING |}
         s1_saved)) = log s1_saved.
Proof. apply getPendingSessions_unscoped; reflexivity. Defined.

(** ** Unconditional status update *)

Lemma updateStatus_run now id s w :
  next_fault w = None ->
  updateStatus now id s w =
    (Return tt,
     {| table := <[id := obj_set "lastUpdateTime" (VNum now)
                           (obj_set "status" (VStr (status_str s))
                              (default [("sessionId", VStr id)] (table w !! id)))]>
                   (table w);
        faults := tail (faults w);
        log := log w ++ [UpdateCommand id
                 [("status", VStr (status_str s)); ("lastUpdateTime", VNum now)] None] |}).
Proof.
  intros Hf. unfold updateStatus, mbind, M_bind. by rewrite (send_through _ _ Hf).
Qed.

Lemma deleteSession_run id w :
  next_fault w = None ->
  deleteSession (VStr id) w =
    (Return tt,
     {| table := delete id (table w);
        faults := tail (faults w);
        log := log w ++ [DeleteCommand (VStr id)] |}).
Proof.
  intros Hf. unfold deleteSession, mbind, M_bind. by rewrite (send_through _ _ Hf).
Qed.

(** C9. [updateStatus] upserts. For a [sessionId] with no stored record
    the call returns normally and stores a record made of [sessionId],
    the given status and [lastUpdateTime] only. In particular, after
    [deleteSession] the call brings the [sessionId] back as such a partial
    record, with no [startTime], [thetaState] or [expiresAt]. *)
Theorem updateStatus_upserts (now : Z) (id : string) (s : SessionStatus) (w : World) :
  let partial :=
    [("sessionId", VStr id); ("status", VStr (status_str s)); ("lastUpdateTime", VNum now)] in
  (next_fault w = None ->
   table w !! id = None ->
   fst (updateStatus now id s w) = Return tt /\
   table (snd (updateStatus now id s w)) !! id = Some partial) /\
  (faults w = [] ->
   let deleted := snd (deleteSession (VStr id) w) in
   table deleted !! id = None /\
   fst (updateStatus now id s deleted) = Return tt /\
   table (snd (updateStatus now id s deleted)) !! id = Some partial) /\
  obj_get partial "startTime" = VUndefined /\
  obj_get partial "thetaState" = VUndefined /\
  obj_get partial "expiresAt" = VUndefined.
Proof.
  intros partial. split; [|split].
  - intros Hf Habs. rewrite (updateStatus_run now id s w Hf). simpl.
    rewrite lookup_insert_eq, Habs. done.
  - intros Hf deleted.
    assert (Hd : deleted =
              {| table := delete id (table w); faults := [];
                 log := log w ++ [DeleteCommand (VStr id)] |}).
    { subst deleted. rewrite (deleteSession_run id w (next_fault_nil w Hf)).
      simpl. by rewrite Hf. }
    assert (Habs : table deleted !! id = None).
    { rewrite Hd. simpl. apply lookup_delete_eq. }
    split; [exact Habs|].
    rewrite (updateStatus_run now id s deleted) by (by rewrite Hd).
    simpl. rewrite lookup_insert_eq, Habs. done.
  - done.
Qed.

Lemma updateStatus_upserts_witness :
  (fst (updateStatus 7000 "s9" FAILED s1_saved) = Return tt /\
   table (snd (updateStatus 7000 "s9" FAILED s1_saved)) !! "s9"
     = Some [("sessionId", VStr "s9"); ("status", VStr "FAILED");
             ("lastUpdateTime", VNum 7000)]) /\
  (table (snd (deleteSession (VStr "s1") s1_saved)) !! "s1" = None /\
   fst (updateStatus 7000 "s1" COMPLETED (snd (deleteSession (VStr "s1") s1_saved)))
     = Return tt /\
   table (snd (updateStatus 7000 "s1" COMPLETED (snd (deleteSession (VStr "s1") s1_saved))))
     !! "s1"
     = Some [("sessionId", VStr "s1"); ("status", VStr "COMPLETED");
             ("lastUpdateTime", VNum 7000)]).
Proof.
  split.
  - apply (proj1 (updateStatus_upserts 7000 "s9" FAILED s1_saved)).
    + reflexivity.
    + vm_compute. reflexivity.
  - apply (proj1 (proj2 (updateStatus_upserts 7000 "s1" COMPLETED s1_saved))).
    reflexivity.
Defined.

(** ** Saving *)

Lemma saveState_run now sessionId st options w :
  next_fault w = None ->
  exists item,
    saveState now sessionId st options w =
      (Return tt,
       {| table := <[sessionId := marshall item]> (table w);
          faults := tail (faults w);
          log := log w ++ [PutCommand item] |}) /\
    (forall k, has_own item k ->
       has_own (metadata st) k \/
       In k ["sessionId"; "lastUpdateTime"; "expiresAt"; "thetaState"; "context"; "error"]).
Proof.
  intros Hf. eexists. split.
  - unfold saveState, mbind, M_bind. rewrite (send_through _ _ Hf). simpl.
    rewrite !obj_get_set_ne by discriminate. rewrite obj_get_set_eq. reflexivity.
  - intros k Hk. simpl.
    repeat (apply has_own_set in Hk as [->|Hk]; [tauto|]). tauto.
Qed.

(** ** Restoring *)

Section RestoreFacts.

Variable StringToNumber : string -> Number.

Lemma restoreState_absent now id w :
  next_fault w = None ->
  table w !! id = None ->
  restoreState StringToNumber now id w = (Return None, read_only (GetCommand id) w).
Proof.
  intros Hf Habs. unfold restoreState, mbind, M_bind.
  rewrite (send_through _ _ Hf). simpl. by rewrite Habs.
Qed.

(** An item without a [metadata] property cannot be read: the first
    access, [state.metadata.startTime], throws. *)
Lemma restoreState_flat now id w item :
  next_fault w = None ->
  table w !! id = Some item ->
  obj_get item "metadata" = VUndefined ->
  restoreState StringToNumber now id w = (Throw TypeError, read_only (GetCommand id) w).
Proof.
  intros Hf Hit Hmd. unfold restoreState, mbind, M_bind.
  rewrite (send_through _ _ Hf). simpl. rewrite Hit.
  unfold lift, metadata_field. simpl. by rewrite Hmd.
Qed.

(** X18. An expired record that nests its metadata is deleted on
    restore. On a backend that answers, when the stored item has a
    [metadata] object whose [expiresAt], in seconds, lies strictly before
    the clock reading in milliseconds, [restoreState] sends a get and a
    delete, returns null, and the record is gone. *)
Lemma restoreState_expired now id w item m e :
  faults w = [] ->
  table w !! id = Some item ->
  obj_get item "metadata" = VObj m ->
  obj_get m "expiresAt" = VNum e ->
  e * 1000 < now ->
  restoreState StringToNumber now id w =
    (Return None,
     {| table := delete id (table w);
        faults := [];
        log := log w ++ [GetCommand id; DeleteCommand (VStr id)] |}).
Proof.
  intros Hf Hit Hmd He Hlt. unfold restoreState, mbind, M_bind.
  rewrite (send_through _ _ (next_fault_nil w Hf)). simpl. rewrite Hit.
  unfold lift, metadata_field. simpl. rewrite Hmd. simpl. rewrite He. simpl.
  assert (Hgt : (e * 1000 <? now) = true) by (apply Z.ltb_lt; lia).
  rewrite Hgt. unfold mbind, M_bind.
  rewrite deleteSession_run by (unfold next_fault; simpl; by rewrite Hf).
  simpl. rewrite Hf. simpl. by rewrite <- app_assoc.
Qed.

(** X19. A live record that nests its metadata is returned and nothing
    is written. When the stored item has a [metadata] object whose
    [expiresAt] has not passed, the very millisecond [expiresAt * 1000]
    included, [restoreState] returns the item itself, resumable exactly
    when [metadata.status] is RUNNING, with the clock reading minus
    [metadata.startTime] as elapsed time; only the get is sent. *)
Lemma restoreState_live now id w item m e :
  next_fault w = None ->
  table w !! id = Some item ->
  obj_get item "metadata" = VObj m ->
  obj_get m "expiresAt" = VNum e ->
  now <= e * 1000 ->
  restoreState StringToNumber now id w =
    (Return (Some {| state := item;
                     resumable := strict_eq (obj_get m "status") (VStr (status_str RUNNING));
                     elapsed := num_sub (Fin now) (ToNumber StringToNumber (obj_get m "startTime")) |}),
     read_only (GetCommand id) w).
Proof.
  intros Hf Hit Hmd He Hle. unfold restoreState, mbind, M_bind.
  rewrite (send_through _ _ Hf). simpl. rewrite Hit.
  unfold lift, metadata_field. simpl. rewrite Hmd. simpl. rewrite He. simpl.
  assert (Hgt : (e * 1000 <? now) = false) by (apply Z.ltb_ge; lia).
  by rewrite Hgt.
Qed.

End RestoreFacts.

(** C3. Round-trip, as the code has it. [saveState] writes the item
    with the metadata spread at its top level; [restoreState] reads it
    through a [metadata] property the item does not have. For every state
    whose metadata object has only the fields of [SessionMetadata], a
    save followed by a restore does not return the saved record: the
    restore throws a [TypeError], and the record stays stored. *)
Theorem save_then_restore_throws
    (StringToNumber : string -> Number) (now1 now2 : Z) (sessionId : string)
    (st : PersistedSessionState) (options : SaveStateOptions) (w : World) :
  faults w = [] ->
  (forall k, has_own (metadata st) k -> In k SessionMetadata_fields) ->
  let saved := snd (saveState now1 sessionId st options w) in
  fst (restoreState StringToNumber now2 sessionId saved) = Throw TypeError /\
  is_Some (table (snd (restoreState StringToNumber now2 sessionId saved)) !! sessionId).
Proof.
  intros Hf Hfields saved. subst saved.
  destruct (saveState_run now1 sessionId st options w (next_fault_nil w Hf))
    as (item & -> & Hown).
  simpl. rewrite Hf. simpl.
  set (w1 := {| table := <[sessionId := marshall item]> (table w) |}).
  rewrite (restoreState_flat StringToNumber now2 sessionId w1 (marshall item)).
  - simpl. rewrite lookup_insert_eq. eauto.
  - reflexivity.
  - subst w1. simpl. apply lookup_insert_eq.
  - apply obj_get_absent. intros Hm. apply has_own_marshall, Hown in Hm.
    destruct Hm as [Hm|Hm].
    + apply Hfields in Hm. simpl in Hm.
      repeat (destruct Hm as [Hm|Hm]; [discriminate|]). done.
    + simpl in Hm. repeat (destruct Hm as [Hm|Hm]; [discriminate|]). done.
Qed.

Lemma save_then_restore_throws_witness :
  fst (restoreState (fun _ => NaN) 5001 "s1" s1_saved) = Throw TypeError /\
  is_Some (table (snd (restoreState (fun _ => NaN) 5001 "s1" s1_saved)) !! "s1").
Proof.
  apply (save_then_restore_throws (fun _ => NaN) 5000 5001 "s1" s1_state
           {| ttl := Some 3600; includeError := false |} empty_world).
  - reflexivity.
  - simpl. unfold has_own. simpl. tauto.
Defined.

(** C4. Expiry on restore, evaluated. Session [s1] is saved at 5000 ms
    with [ttl = 0], so that its [expiresAt] is 5 s; it is restored one
    millisecond later, when [expiresAt] has passed. The restore neither
    returns null nor deletes the record: it throws a [TypeError] on
    [state.metadata.startTime], before the expiry check, and the record
    is still stored. *)
Theorem restore_after_ttl0_throws (StringToNumber : string -> Number) :
  obj_get (default [] (table s1_saved_ttl0 !! "s1")) "expiresAt" = VNum 5 /\
  fst (restoreState StringToNumber 5001 "s1" s1_saved_ttl0) = Throw TypeError /\
  table (snd (restoreState StringToNumber 5001 "s1" s1_saved_ttl0)) !! "s1"
    = table s1_saved_ttl0 !! "s1" /\
  is_Some (table s1_saved_ttl0 !! "s1").
Proof.
  assert (Hit : table s1_saved_ttl0 !! "s1" =
                Some (obj_set "expiresAt" (VNum 5) s1_item))
    by (vm_compute; reflexivity).
  rewrite (restoreState_flat StringToNumber 5001 "s1" s1_saved_ttl0 _ eq_refl Hit eq_refl).
  rewrite Hit. simpl. eauto.
Qed.

(** C7. Restore result, evaluated. The table holds the record of [s1]
    as [saveState] wrote it: status RUNNING, [startTime] 1000 ms,
    [expiresAt] 3605 s. At 6000 ms the record has not expired, yet
    [restoreState] does not return it as a resumable session with 5000 ms
    elapsed: it throws a [TypeError]. An absent record is reported as
    null. *)
Theorem restore_of_stored_record_throws (StringToNumber : string -> Number) :
  table s1_saved !! "s1" = Some s1_item /\
  obj_get s1_item "status" = VStr (status_str RUNNING) /\
  obj_get s1_item "startTime" = VNum 1000 /\
  obj_get s1_item "expiresAt" = VNum 3605 /\
  fst (restoreState StringToNumber 6000 "s1" s1_saved) = Throw TypeError /\
  fst (restoreState StringToNumber 6000 "s0" s1_saved) = Return None.
Proof.
  pose proof s1_saved_table as Hit.
  rewrite (restoreState_flat StringToNumber 6000 "s1" s1_saved _ eq_refl Hit eq_refl).
  rewrite (restoreState_absent StringToNumber 6000 "s0" s1_saved eq_refl)
    by (vm_compute; reflexivity).
  done.
Qed.

(** ** Listing pending sessions *)

Lemma items_In (t : gmap string Obj) id item : t !! id = Some item -> In item (items t).
Proof.
  intros H. unfold items. apply list_elem_of_In, list_elem_of_fmap.
  exists (id, item). split; [done|]. by apply elem_of_map_to_list.
Qed.

Lemma In_items (t : gmap string Obj) item : In item (items t) -> exists id, t !! id = Some item.
Proof.
  unfold items. intros H. apply list_elem_of_In, list_elem_of_fmap in H.
  destruct H as ([id it] & -> & H). exists id. by apply elem_of_map_to_list.
Qed.

(** What a scoped call computes: one indexed query, then the channel
    filter when it is reached. *)
Lemma getPendingSessions_scoped date_now filter w :
  scoped filter ->
  getPendingSessions date_now filter w =
    (response ← send (pending_query date_now filter);
     if post_filtered filter
     then lift (filter_array (channel_check filter) (default [] (Items response)))
     else mret (default [] (Items response))) w.
Proof.
  intros Hsc. unfold getPendingSessions, post_filtered, pending_query, scoped in *.
  destruct (status filter) as [st|];
    [rewrite (status_value_truthy st) | change (truthy (status_value None)) with false].
  all: destruct (truthy (of_opt (userId filter))) eqn:Eu;
    destruct (truthy (of_opt (guildId filter))) eqn:Eg;
    try (destruct Hsc; discriminate).
  all: reflexivity.
Qed.

(** The table rejects the query: the value [:now] is used by no
    expression. *)
Lemma pending_query_rejected date_now filter t :
  exec (pending_query date_now filter) t = (Throw ValidationException, t).
Proof. unfold pending_query. by destruct (truthy (of_opt (userId filter))). Qed.

Lemma getPendingSessions_throws date_now filter w :
  next_fault w = None ->
  scoped filter ->
  getPendingSessions date_now filter w =
    (Throw ValidationException, read_only (pending_query date_now filter) w).
Proof.
  intros Hf Hsc. rewrite (getPendingSessions_scoped _ _ _ Hsc).
  unfold mbind, M_bind. rewrite (send_through _ _ Hf).
  by rewrite pending_query_rejected.
Qed.

(** C5. Channel filter, as the code has it. The filter names a user or
    a guild, and a channel. With a status in the filter the function is
    one query followed by the return of [response.Items || []]: the
    channel is not read and no element is filtered out. And on either
    path, when the query reaches the table, the table rejects it for the
    unused value [:now]: the call throws a ValidationException and returns
    no sequence to which a restriction could apply. *)
Theorem status_path_has_no_channel_filter
    (date_now : Z) (filter : PendingSessionsFilter) (w : World) :
  scoped filter ->
  truthy (of_opt (channelId filter)) = true ->
  (truthy (status_value (status filter)) = true ->
   getPendingSessions date_now filter w =
     (response ← send (pending_query date_now filter);
      mret (default [] (Items response))) w) /\
  (next_fault w = None ->
   fails_with (getPendingSessions date_now filter) w ValidationException).
Proof.
  intros Hsc Hch. split.
  - intros Hst. rewrite (getPendingSessions_scoped _ _ _ Hsc).
    unfold post_filtered. by rewrite Hst.
  - intros Hf. unfold fails_with.
    by rewrite (getPendingSessions_throws _ _ _ Hf Hsc).
Qed.

Lemma status_path_has_no_channel_filter_witness :
  let filter :=
    {| userId := Some "u1"; guildId := None; channelId := Some "c1";
       status := Some RUNNING |} in
  table s1_saved !! "s1" = Some s1_item /\
  obj_get s1_item "channelId" = VStr "c2" /\
  getPendingSessions 6000 filter s1_saved =
    (response ← send (pending_query 6000 filter);
     mret (default [] (Items response))) s1_saved /\
  fails_with (getPendingSessions 6000 filter) s1_saved ValidationException.
Proof.
  intros filter. split; [exact s1_saved_table|]. split; [reflexivity|].
  pose proof (status_path_has_no_channel_filter 6000 filter s1_saved
                (or_introl eq_refl) eq_refl) as [Hpath Hthrows].
  split.
  - apply Hpath. reflexivity.
  - apply Hthrows. reflexivity.
Defined.

(** C10. Expired records and the listing, as the code has it. The
    filter names a user or a guild, the query reaches the table, and a
    stored record has the [userId] (or [guildId]) and the status asked
    for. Whatever its [expiresAt] and whatever the clock reading, the
    record is in no returned sequence, because none is returned: the
    clock reading is sent as the value [:now], no expression uses it, and
    the table rejects the query with a ValidationException. The table is
    left as it was. *)
Theorem expired_record_not_listed
    (date_now : Z) (filter : PendingSessionsFilter) (w : World)
    (id : string) (item : Obj) :
  next_fault w = None ->
  scoped filter ->
  table w !! id = Some item ->
  matches_index filter item ->
  fst (getPendingSessions date_now filter w) = Throw ValidationException /\
  ~ (exists l, fst (getPendingSessions date_now filter w) = Return l /\ In item l) /\
  table (snd (getPendingSessions date_now filter w)) !! id = Some item.
Proof.
  intros Hf Hsc Hit _.
  rewrite (getPendingSessions_throws _ _ _ Hf Hsc). split_and!.
  - reflexivity.
  - intros (l & Hl & _). discriminate.
  - exact Hit.
Qed.

Lemma expired_record_not_listed_witness :
  let filter :=
    {| userId := Some "u1"; guildId := None; channelId := None; status := None |} in
  obj_get s1_item "expiresAt" = VNum 3605 /\
  3605 < 4000000 / 1000 /\
  fst (getPendingSessions 4000000 filter s1_saved) = Throw ValidationException /\
  ~ (exists l, fst (getPendingSessions 4000000 filter s1_saved) = Return l /\
               In s1_item l) /\
  table (snd (getPendingSessions 4000000 filter s1_saved)) !! "s1" = Some s1_item.
Proof.
  intros filter. split; [reflexivity|]. split; [reflexivity|].
  apply (expired_record_not_listed 4000000 filter s1_saved "s1" s1_item).
  - reflexivity.
  - left. reflexivity.
  - exact s1_saved_table.
  - split; reflexivity.
Defined.

(** ** The sweep of expired sessions *)

Lemma attr_eq_strict x s : attr_eq x (VStr s) = strict_eq x (VStr s).
Proof. by destruct x. Qed.

Lemma scan_filter_expired_running now_s item :
  eval (EAnd (AttrEq "status" (VStr (status_str RUNNING))) (AttrLt "expiresAt" now_s)) item
  = expired_running now_s item.
Proof. unfold expired_running. simpl. by rewrite attr_eq_strict. Qed.

Lemma filter_snd_fmap (p : Obj -> bool) (l : list (string * Obj)) :
  List.filter p (l.*2) = (List.filter (fun kv => p kv.2) l).*2.
Proof.
  induction l as [|[k it] l IH]; csimpl; [done|].
  destruct (p it); csimpl; by rewrite IH.
Qed.

Lemma filter_elem_of {A} (p : A -> bool) (l : list A) x :
  x ∈ List.filter p l <-> x ∈ l /\ p x = true.
Proof. rewrite !list_elem_of_In. apply filter_In. Qed.

Lemma NoDup_fst_filter (p : string * Obj -> bool) (l : list (string * Obj)) :
  NoDup (l.*1) -> NoDup ((List.filter p l).*1).
Proof.
  induction l as [|[k it] l IH]; csimpl; [done|].
  intros Hnd. apply NoDup_cons in Hnd as [Hk Hnd].
  destruct (p (k, it)); csimpl; [|by apply IH].
  apply NoDup_cons. split; [|by apply IH].
  intros Hin. apply Hk. apply list_elem_of_fmap in Hin as ([k' it'] & -> & Hin).
  apply filter_elem_of in Hin as [Hin _].
  apply list_elem_of_fmap. by exists (k', it').
Qed.

Lemma for_each_cons {A} (x : A) l body w :
  for_each (x :: l) body w =
    match body x w with
    | (Return _, w') => for_each l body w'
    | (Throw e, w') => (Throw e, w')
    end.
Proof. reflexivity. Qed.

(** The loop of [cleanupExpiredSessions] over items that are stored
    under distinct, non-empty keys: each is deleted, nothing else is. *)
Lemma sweep_loop (l : list (string * Obj)) (w : World) :
  faults w = [] ->
  NoDup (l.*1) ->
  (forall k it, (k, it) ∈ l ->
     k <> "" /\ obj_get it "sessionId" = VStr k /\ table w !! k = Some it) ->
  let r := for_each (l.*2) (fun item =>
             let sessionId := obj_get item "sessionId" in
             if truthy sessionId then deleteSession sessionId else mret tt) w in
  fst r = Return tt /\
  faults (snd r) = [] /\
  (forall k, table (snd r) !! k = if decide (k ∈ l.*1) then None else table w !! k) /\
  (size (table (snd r)) + length l = size (table w))%nat.
Proof.
  revert w. induction l as [|[k it] l IH]; intros w Hf Hnd Hall r; subst r.
  - split_and!; done.
  - rewrite !fmap_cons in *. apply NoDup_cons in Hnd as [Hk Hnd]. cbn [fst snd] in *.
    destruct (Hall k it) as (Hne & Hsid & Hit); [left|].
    assert (Htr : truthy (VStr k) = true).
    { simpl. destruct (String.eqb_spec k ""); [contradiction | done]. }
    rewrite for_each_cons. cbv zeta. 
    rewrite Hsid, Htr, (deleteSession_run k w (next_fault_nil w Hf)).
    set (w1 := {| table := delete k (table w) |}).
    destruct (IH w1) as (Hr & Hfr & Hlook & Hsize).
    + subst w1. simpl. by rewrite Hf.
    + exact Hnd.
    + intros k' it' Hin. destruct (Hall k' it') as (Hne' & Hsid' & Hit'); [by right|].
      split_and!; try done. subst w1. simpl. rewrite lookup_delete_ne; [done|].
      intros ->. apply Hk. apply list_elem_of_fmap. by exists (k', it').
    + cbv zeta in *. split_and!; try done.
      * intros j. rewrite Hlook. subst w1. cbn [table].
        destruct (decide (j = k)) as [->|Hjk].
        -- rewrite lookup_delete_eq.
           rewrite (decide_True (P := k ∈ k :: l.*1)) by left.
           by destruct (decide (k ∈ l.*1)).
        -- rewrite lookup_delete_ne by done.
           destruct (decide (j ∈ l.*1)) as [Hj|Hj].
           ++ rewrite decide_True; [done | by right].
           ++ rewrite decide_False; [done|].
              intros Hin. apply elem_of_cons in Hin as [?|?]; done.
      * subst w1. cbn [table] in Hsize.
        rewrite map_size_delete_Some in Hsize by eauto.
        assert (size (table w) <> 0)%nat.
        { intros Hz. apply map_size_empty_inv in Hz. rewrite Hz in Hit.
          by rewrite lookup_empty in Hit. }
        cbn [length]. lia.
Qed.

(** One scan, then the loop over what it found. *)
Lemma cleanupExpiredSessions_run date_now w :
  faults w = [] ->
  let e := EAnd (AttrEq "status" (VStr (status_str RUNNING)))
                (AttrLt "expiresAt" (date_now / 1000)) in
  let found := List.filter (eval e) (items (table w)) in
  let r := for_each found (fun item =>
             let sessionId := obj_get item "sessionId" in
             if truthy sessionId then deleteSession sessionId else mret tt)
             (read_only (ScanCommand e) w) in
  cleanupExpiredSessions date_now w =
    (match fst r with Return _ => Return (length found) | Throw ex => Throw ex end,
     snd r).
Proof.
  intros Hf e found r. subst r found e.
  unfold cleanupExpiredSessions, mbind, M_bind.
  rewrite (send_through _ _ (next_fault_nil w Hf)).
  cbn [exec fst snd Items default from_option]. unfold read_only.
  by destruct (for_each _ _ _) as [[[]|ex] w'].
Qed.

(** C8. Cleanup correctness. The backend is available and every
    stored item carries its key. With [now_s] the clock reading in
    seconds, [cleanupExpiredSessions] returns N, the number of stored
    records with status RUNNING and [expiresAt < now_s]; it deletes each
    of them, exactly N records disappear from the table, and every other
    record, in particular every record whose [expiresAt] is still ahead,
    is stored unchanged. *)
Theorem cleanupExpiredSessions_correct (date_now : Z) (w : World) :
  faults w = [] ->
  wf_table (table w) ->
  let now_s := date_now / 1000 in
  let N := length (List.filter (expired_running now_s) (items (table w))) in
  let r := cleanupExpiredSessions date_now w in
  fst r = Return N /\
  (forall id item, table w !! id = Some item -> expired_running now_s item = true ->
     table (snd r) !! id = None) /\
  (forall id item, table w !! id = Some item -> expired_running now_s item = false ->
     table (snd r) !! id = Some item) /\
  (forall id, table w !! id = None -> table (snd r) !! id = None) /\
  (size (table (snd r)) + N = size (table w))%nat.
Proof.
  intros Hf Hwf now_s N r. subst r N.
  rewrite (cleanupExpiredSessions_run date_now w Hf). fold now_s.
  set (e := EAnd _ _).
  assert (Hitems : List.filter (eval e) (items (table w)) =
                   (List.filter (fun kv => expired_running now_s kv.2)
                      (map_to_list (table w))).*2).
  { unfold items. rewrite filter_snd_fmap. f_equal. }
  assert (Hcount : List.filter (expired_running now_s) (items (table w)) =
                   (List.filter (fun kv => expired_running now_s kv.2)
                      (map_to_list (table w))).*2).
  { unfold items. by rewrite filter_snd_fmap. }
  rewrite Hitems, Hcount.
  set (l := List.filter _ (map_to_list (table w))).
  assert (Hl : forall k it, (k, it) ∈ l <->
                 table w !! k = Some it /\ expired_running now_s it = true).
  { intros k it. subst l. rewrite filter_elem_of, elem_of_map_to_list. done. }
  destruct (sweep_loop l (read_only (ScanCommand e) w)) as (Hr & Hfr & Hlook & Hsize).
  { simpl. by rewrite Hf. }
  { apply NoDup_fst_filter, NoDup_fst_map_to_list. }
  { intros k it Hin. apply Hl in Hin as [Hit _].
    destruct (Hwf k it Hit). done. }
  cbv zeta in *. cbn [fst snd]. rewrite Hr. cbn [table read_only] in Hlook, Hsize.
  rewrite !length_fmap in *. split_and!.
  - done.
  - intros id item Hit Hexp. rewrite Hlook. rewrite decide_True; [done|].
    apply list_elem_of_fmap. exists (id, item). split; [done|]. by apply Hl.
  - intros id item Hit Hexp. rewrite Hlook. rewrite decide_False; [done|].
    intros Hin. apply list_elem_of_fmap in Hin as ([k it] & -> & Hin).
    apply Hl in Hin as [Hit' Hexp']. simpl in Hit. congruence.
  - intros id Hnone. rewrite Hlook. by destruct (decide _).
  - exact Hsize.
Qed.

Lemma cleanupExpiredSessions_correct_witness :
  fst (cleanupExpiredSessions 100000 sweep_world) = Return 1%nat /\
  table (snd (cleanupExpiredSessions 100000 sweep_world)) !! "a" = None /\
  table (snd (cleanupExpiredSessions 100000 sweep_world)) !! "b"
    = Some (sweep_item "b" "RUNNING" 200) /\
  table (snd (cleanupExpiredSessions 100000 sweep_world)) !! "c"
    = Some (sweep_item "c" "COMPLETED" 50).
Proof.
  assert (Hwf : wf_table (table sweep_world)).
  { intros k item. unfold sweep_world. simpl.
    rewrite !lookup_insert. repeat case_decide; subst;
      rewrite ?lookup_singleton; try case_decide; subst;
      intros [= <-] || intros [=]; split; done. }
  destruct (cleanupExpiredSessions_correct 100000 sweep_world eq_refl Hwf)
    as (Hn & Hdel & Hkeep & _ & _).
  split_and!.
  - rewrite Hn. vm_compute. reflexivity.
  - apply (Hdel "a" (sweep_item "a" "RUNNING" 50)); vm_compute; reflexivity.
  - apply (Hkeep "b" (sweep_item "b" "RUNNING" 200)); vm_compute; reflexivity.
  - apply (Hkeep "c" (sweep_item "c" "COMPLETED" 50)); vm_compute; reflexivity.
Defined.

(** * Further properties of the session manager *)

(** ** Deleting *)

(** X1. [deleteSession] is idempotent. On a backend that answers,
    deleting an id that has no record returns normally and leaves the
    table as it is; after a delete the id has no record, a second delete
    changes nothing more, and no other record is touched. *)
Theorem deleteSession_idempotent (id : string) (w : World) :
  faults w = [] ->
  let w1 := snd (deleteSession (VStr id) w) in
  fst (deleteSession (VStr id) w) = Return tt /\
  table w1 !! id = None /\
  (forall k, k <> id -> table w1 !! k = table w !! k) /\
  (table w !! id = None -> table w1 = table w) /\
  fst (deleteSession (VStr id) w1) = Return tt /\
  table (snd (deleteSession (VStr id) w1)) = table w1.
Proof.
  intros Hf w1.
  assert (E1 := deleteSession_run id w (next_fault_nil w Hf)).
  assert (Hw1 : w1 = {| table := delete id (table w); faults := [];
                        log := log w ++ [DeleteCommand (VStr id)] |}).
  { subst w1. rewrite E1. simpl. by rewrite Hf. }
  assert (E2 := deleteSession_run id w1).
  rewrite Hw1 in E2 |- *. specialize (E2 eq_refl). rewrite E1, E2. simpl.
  split_and!; try done.
  - apply lookup_delete_eq.
  - intros k Hk. by apply lookup_delete_ne.
  - apply delete_id.
  - apply delete_id, lookup_delete_eq.
Qed.

Lemma deleteSession_idempotent_witness :
  fst (deleteSession (VStr "s1") s1_saved) = Return tt /\
  table (snd (deleteSession (VStr "s1") s1_saved)) !! "s1" = None /\
  fst (deleteSession (VStr "s1") (snd (deleteSession (VStr "s1") s1_saved))) = Return tt.
Proof.
  destruct (deleteSession_idempotent "s1" s1_saved eq_refl) as (H1 & H2 & _ & _ & H5 & _).
  split_and!; assumption.
Defined.

(** ** Saving *)

Lemma saveState_table now id st options w :
  next_fault w = None ->
  saveState now id st options w =
    (Return tt,
     {| table := <[id := saved_item now id st options]> (table w);
        faults := tail (faults w);
        log := log w ++ [PutCommand (put_item now id st options)] |}).
Proof.
  intros Hf. unfold saveState, saved_item, put_item, mbind, M_bind.
  rewrite (send_through _ _ Hf). simpl.
  rewrite !obj_get_set_ne by discriminate. rewrite obj_get_set_eq. reflexivity.
Qed.

(** X2. What a save recomputes. On a backend that answers, [saveState]
    stores the record under the [sessionId] argument and touches no
    other record. Whatever the metadata of the state said, the stored
    [sessionId] is the argument, [lastUpdateTime] is the clock reading
    and [expiresAt] is the clock reading in whole seconds plus the time
    to live, 3600 s when none is given. *)
Theorem saveState_recomputes
    (now : Z) (id : string) (st : PersistedSessionState)
    (options : SaveStateOptions) (w : World) :
  next_fault w = None ->
  let w1 := snd (saveState now id st options w) in
  fst (saveState now id st options w) = Return tt /\
  (exists item,
     table w1 !! id = Some item /\
     obj_get item "sessionId" = VStr id /\
     obj_get item "lastUpdateTime" = VNum now /\
     obj_get item "expiresAt" = VNum (now / 1000 + default 3600 (ttl options))) /\
  (forall k, k <> id -> table w1 !! k = table w !! k).
Proof.
  intros Hf w1. subst w1. rewrite (saveState_table now id st options w Hf). simpl.
  split_and!; [done | | by intros k Hk; rewrite lookup_insert_ne].
  exists (saved_item now id st options). rewrite lookup_insert_eq.
  unfold saved_item, put_item. split_and!; [done | | |].
  - apply obj_get_marshall_defined; [|discriminate].
    rewrite !obj_get_set_ne by discriminate. apply obj_get_set_eq.
  - apply obj_get_marshall_defined; [|discriminate].
    rewrite !obj_get_set_ne by discriminate. apply obj_get_set_eq.
  - apply obj_get_marshall_defined; [|discriminate].
    rewrite !obj_get_set_ne by discriminate. apply obj_get_set_eq.
Qed.

Lemma saveState_recomputes_witness :
  exists item,
    table (snd (saveState 5000 "s1" s1_state {| ttl := None; includeError := false |}
                  empty_world)) !! "s1" = Some item /\
    obj_get item "sessionId" = VStr "s1" /\
    obj_get item "lastUpdateTime" = VNum 5000 /\
    obj_get item "expiresAt" = VNum 3605.
Proof.
  apply (proj1 (proj2 (saveState_recomputes 5000 "s1" s1_state
                         {| ttl := None; includeError := false |} empty_world eq_refl))).
Defined.

(** X3. A save replaces the whole record. On a backend that answers,
    the record stored under the id after [saveState] depends on the
    arguments and the clock reading only: nothing of a record stored
    before survives, and saving again with the same arguments and clock
    reading leaves the table unchanged. *)
Theorem saveState_replaces
    (now : Z) (id : string) (st : PersistedSessionState)
    (options : SaveStateOptions) (w w' : World) :
  next_fault w = None ->
  next_fault w' = None ->
  table (snd (saveState now id st options w)) !! id
    = table (snd (saveState now id st options w')) !! id /\
  (faults w = [] ->
   table (snd (saveState now id st options (snd (saveState now id st options w))))
     = table (snd (saveState now id st options w))).
Proof.
  intros Hf Hf'.
  rewrite (saveState_table now id st options w Hf).
  rewrite (saveState_table now id st options w' Hf'). simpl.
  split; [by rewrite !lookup_insert_eq|].
  intros Hnil. rewrite saveState_table by (unfold next_fault; simpl; by rewrite Hnil).
  simpl. apply insert_insert_eq.
Qed.

Lemma saveState_replaces_witness :
  table (snd (saveState 9000 "s1" s1_state {| ttl := Some 60; includeError := true |}
                s1_saved)) !! "s1"
  = table (snd (saveState 9000 "s1" s1_state {| ttl := Some 60; includeError := true |}
                  empty_world)) !! "s1".
Proof.
  apply (proj1 (saveState_replaces 9000 "s1" s1_state
                  {| ttl := Some 60; includeError := true |} s1_saved empty_world
                  eq_refl eq_refl)).
Defined.

Lemma In_obj_set k v o k' v' :
  In (k', v') (obj_set k v o) -> (k', v') = (k, v) \/ In (k', v') o.
Proof.
  induction o as [|[k0 v0] o IH]; simpl.
  - intros [[= <- <-]|[]]. by left.
  - destruct (String.eqb k k0); simpl.
    + intros [[= <- <-]|H]; auto.
    + intros [H|H]; auto. destruct (IH H); auto.
Qed.

Lemma marshall_undefined o k :
  (forall v, In (k, v) o -> v = VUndefined) -> obj_get (marshall o) k = VUndefined.
Proof.
  intros Hall. apply obj_get_absent. unfold has_own, marshall.
  rewrite in_map_iff. intros ([k' v] & Hk & Hin). simpl in Hk. subst k'.
  apply filter_In in Hin as [Hin Hv]. rewrite (Hall v Hin) in Hv. discriminate.
Qed.

(** X4. The error is stored on request only. For a state whose
    metadata object has only the fields of [SessionMetadata], the stored
    record has the [error] of the state when [includeError] is set, and
    no [error] at all when it is not, whatever error the state carries. *)
Theorem saveState_error_option
    (now : Z) (id : string) (st : PersistedSessionState)
    (options : SaveStateOptions) (w : World) :
  next_fault w = None ->
  (forall k, has_own (metadata st) k -> In k SessionMetadata_fields) ->
  exists item,
    table (snd (saveState now id st options w)) !! id = Some item /\
    obj_get item "error" = (if includeError options then error st else VUndefined).
Proof.
  intros Hf Hfields. rewrite (saveState_table now id st options w Hf). simpl.
  exists (saved_item now id st options). rewrite lookup_insert_eq. split; [done|].
  unfold saved_item, put_item.
  generalize (if includeError options then error st else VUndefined). intros v.
  destruct (is_undefined v) eqn:Ev.
  - destruct v; try discriminate. apply marshall_undefined.
    intros v' Hin. apply In_obj_set in Hin as [Hin|Hin]; [congruence|].
    exfalso.
    repeat (apply In_obj_set in Hin as [Hin|Hin]; [discriminate|]).
    assert (Hown : has_own (metadata st) "error").
    { unfold has_own. apply in_map_iff. exists ("error", v'). split; [done|exact Hin]. }
    apply Hfields in Hown. simpl in Hown.
    repeat (destruct Hown as [Hown|Hown]; [discriminate|]). done.
  - apply obj_get_marshall_defined; [apply obj_get_set_eq|].
    intros Hv. rewrite Hv in Ev. discriminate.
Qed.

Lemma saveState_error_option_witness :
  (exists item,
     table (snd (saveState 5000 "s1"
                   {| metadata := metadata s1_state; thetaState := VNull;
                      context := VNull; error := VStr "boom" |}
                   {| ttl := None; includeError := false |} empty_world)) !! "s1"
       = Some item /\
     obj_get item "error" = VUndefined) /\
  (exists item,
     table (snd (saveState 5000 "s1"
                   {| metadata := metadata s1_state; thetaState := VNull;
                      context := VNull; error := VStr "boom" |}
                   {| ttl := None; includeError := true |} empty_world)) !! "s1"
       = Some item /\
     obj_get item "error" = VStr "boom").
Proof.
  split.
  - apply (saveState_error_option 5000 "s1"
             {| metadata := metadata s1_state; thetaState := VNull;
                context := VNull; error := VStr "boom" |}
             {| ttl := None; includeError := false |} empty_world eq_refl).
    simpl. unfold has_own. simpl. tauto.
  - apply (saveState_error_option 5000 "s1"
             {| metadata := metadata s1_state; thetaState := VNull;
                context := VNull; error := VStr "boom" |}
             {| ttl := None; includeError := true |} empty_world eq_refl).
    simpl. unfold has_own. simpl. tauto.
Defined.

(** ** Status updates *)

(** X5. [updateStatus] overwrites whatever the current status is and
    keeps the rest. On a backend that answers, for a stored record the
    call returns normally; afterwards the record has the given status and
    the clock reading as [lastUpdateTime], every other attribute of the
    record is as before, and no other record is touched. *)
Theorem updateStatus_overwrites
    (now : Z) (id : string) (s : SessionStatus) (w : World) (item : Obj) :
  next_fault w = None ->
  table w !! id = Some item ->
  let w1 := snd (updateStatus now id s w) in
  fst (updateStatus now id s w) = Return tt /\
  (exists item',
     table w1 !! id = Some item' /\
     obj_get item' "status" = VStr (status_str s) /\
     obj_get item' "lastUpdateTime" = VNum now /\
     (forall k, k <> "status" -> k <> "lastUpdateTime" ->
        obj_get item' k = obj_get item k)) /\
  (forall k, k <> id -> table w1 !! k = table w !! k).
Proof.
  intros Hf Hit w1. subst w1. rewrite (updateStatus_run now id s w Hf). simpl.
  rewrite Hit. simpl. split_and!; [done | | by intros k Hk; rewrite lookup_insert_ne].
  eexists. rewrite lookup_insert_eq. split_and!; [done | | |].
  - rewrite obj_get_set_ne by discriminate. apply obj_get_set_eq.
  - apply obj_get_set_eq.
  - intros k Hk1 Hk2. by rewrite !obj_get_set_ne.
Qed.

Lemma updateStatus_overwrites_witness :
  exists item',
    table (snd (updateStatus 7000 "s1" CANCELLED s1_saved)) !! "s1" = Some item' /\
    obj_get item' "status" = VStr (status_str CANCELLED) /\
    obj_get item' "lastUpdateTime" = VNum 7000 /\
    (forall k, k <> "status" -> k <> "lastUpdateTime" ->
       obj_get item' k = obj_get s1_item k).
Proof.
  apply (proj1 (proj2 (updateStatus_overwrites 7000 "s1" CANCELLED s1_saved s1_item
                         eq_refl s1_saved_table))).
Defined.

(** X6. An applied conditional transition keeps the payload. When
    [updateStatusIf] returns true on a backend that answers, the record
    differs from the one stored before in [status] and [lastUpdateTime]
    only, and no other record is touched. *)
Theorem updateStatusIf_keeps_payload
    (now : Z) (id : string) (newStatus expected : SessionStatus)
    (w : World) (item : Obj) :
  next_fault w = None ->
  table w !! id = Some item ->
  obj_get item "status" = VStr (status_str expected) ->
  let w1 := snd (updateStatusIf now id newStatus expected w) in
  (exists item',
     table w1 !! id = Some item' /\
     obj_get item' "lastUpdateTime" = VNum now /\
     (forall k, k <> "status" -> k <> "lastUpdateTime" ->
        obj_get item' k = obj_get item k)) /\
  (forall k, k <> id -> table w1 !! k = table w !! k).
Proof.
  intros Hf Hit Hst w1. subst w1.
  rewrite (updateStatusIf_applied now id newStatus expected w item Hf Hit Hst). simpl.
  split; [|by intros k Hk; rewrite lookup_insert_ne].
  eexists. rewrite lookup_insert_eq. split_and!; [done | |].
  - apply obj_get_set_eq.
  - intros k Hk1 Hk2. by rewrite !obj_get_set_ne.
Qed.

Lemma updateStatusIf_keeps_payload_witness :
  exists item',
    table (snd (updateStatusIf 7000 "s1" COMPLETED RUNNING s1_saved)) !! "s1" = Some item' /\
    obj_get item' "lastUpdateTime" = VNum 7000 /\
    (forall k, k <> "status" -> k <> "lastUpdateTime" ->
       obj_get item' k = obj_get s1_item k).
Proof.
  apply (proj1 (updateStatusIf_keeps_payload 7000 "s1" COMPLETED RUNNING s1_saved s1_item
                  eq_refl s1_saved_table eq_refl)).
Defined.

(** ** Failures of the backend *)

(** X7. A failing backend is never hidden. When the first command of a
    call meets a backend failure [e], each of [saveState],
    [updateStatus], [deleteSession], [restoreState],
    [cleanupExpiredSessions] and, for a filter naming a user or a guild,
    [getPendingSessions] throws that same [e] and leaves the table as it
    was. *)
Theorem backend_failure_propagates
    (StringToNumber : string -> Number) (now : Z) (id : string)
    (st : PersistedSessionState) (options : SaveStateOptions)
    (s : SessionStatus) (filter : PendingSessionsFilter) (w : World) (e : Exn) :
  next_fault w = Some e ->
  fails_with (saveState now id st options) w e /\
  fails_with (updateStatus now id s) w e /\
  fails_with (deleteSession (VStr id)) w e /\
  fails_with (restoreState StringToNumber now id) w e /\
  fails_with (cleanupExpiredSessions now) w e /\
  (scoped filter -> fails_with (getPendingSessions now filter) w e).
Proof.
  intros Hf. unfold fails_with. split_and!.
  1-10: unfold saveState, updateStatus, deleteSession, restoreState,
          cleanupExpiredSessions, mbind, M_bind;
        by rewrite (send_fault _ _ _ Hf).
  intros Hsc. unfold getPendingSessions, scoped in *.
  destruct (truthy (of_opt (userId filter))) eqn:Eu;
    destruct (truthy (of_opt (guildId filter))) eqn:Eg;
    try (destruct Hsc; discriminate).
  all: cbn [negb andb]; destruct (truthy (status_value (status filter)));
    unfold mbind, M_bind; by rewrite (send_fault _ _ _ Hf).
Qed.

Lemma backend_failure_propagates_witness :
  fails_with (saveState 9000 "s1" s1_state {| ttl := None; includeError := false |})
    s1_throttled throttling /\
  fails_with (restoreState (fun _ => NaN) 9000 "s1") s1_throttled throttling /\
  fails_with (cleanupExpiredSessions 9000) s1_throttled throttling.
Proof.
  destruct (backend_failure_propagates (fun _ => NaN) 9000 "s1" s1_state
              {| ttl := None; includeError := false |} RUNNING
              {| userId := Some "u1"; guildId := None; channelId := None; status := None |}
              s1_throttled throttling eq_refl) as (H1 & _ & _ & H4 & H5 & _).
  split_and!; assumption.
Defined.

(** ** The table stays well formed under every operation *)

Lemma preserves_wf_ret {A} (a : A) : preserves_wf (mret a).
Proof. by intros w Hwf. Qed.

Lemma preserves_wf_lift {A} (o : Outcome A) : preserves_wf (lift o).
Proof. by intros w Hwf. Qed.

Lemma preserves_wf_bind {A B} (m : M A) (k : A -> M B) :
  preserves_wf m -> (forall a, preserves_wf (k a)) -> preserves_wf (m ≫= k).
Proof.
  intros Hm Hk w Hwf. unfold mbind, M_bind. specialize (Hm w Hwf).
  destruct (m w) as [[a|e] w']; simpl in *; [by apply Hk | done].
Qed.

Lemma preserves_wf_send c : safe_command c -> preserves_wf (send c).
Proof. intros Hc w Hwf. by apply send_wf. Qed.

Lemma preserves_wf_for_each {A} (l : list A) (body : A -> M unit) :
  (forall x, preserves_wf (body x)) -> preserves_wf (for_each l body).
Proof.
  intros Hbody. induction l as [|x l IH]; simpl.
  - apply preserves_wf_ret.
  - apply preserves_wf_bind; [apply Hbody | by intros _].
Qed.

Lemma preserves_wf_deleteSession key : preserves_wf (deleteSession key).
Proof. intros w Hwf. by apply deleteSession_wf. Qed.

(** X8. Every operation keeps the table well formed. If every stored
    item carries its non-empty key in [sessionId], this is still so after
    any of the seven operations, called with a non-empty [sessionId],
    whether the backend answers or fails, and whatever the call returns
    or throws. *)
Theorem manager_keeps_wf
    (StringToNumber : string -> Number) (now : Z) (id : string)
    (st : PersistedSessionState) (options : SaveStateOptions)
    (s expected : SessionStatus) (filter : PendingSessionsFilter) :
  id <> "" ->
  preserves_wf (saveState now id st options) /\
  preserves_wf (restoreState StringToNumber now id) /\
  preserves_wf (getPendingSessions now filter) /\
  preserves_wf (deleteSession (VStr id)) /\
  preserves_wf (updateStatus now id s) /\
  preserves_wf (updateStatusIf now id s expected) /\
  preserves_wf (cleanupExpiredSessions now).
Proof.
  intros Hid. split_and!.
  - intros w Hwf. by apply saveState_wf.
  - unfold restoreState. apply preserves_wf_bind; [by apply preserves_wf_send|].
    intros response. destruct (Item response) as [state0|]; [|apply preserves_wf_ret].
    apply preserves_wf_bind; [apply preserves_wf_lift|]. intros startTime.
    apply preserves_wf_bind; [apply preserves_wf_lift|]. intros expiresAt.
    destruct (num_gt _ _).
    + apply preserves_wf_bind; [apply preserves_wf_deleteSession|].
      intros _. apply preserves_wf_ret.
    + apply preserves_wf_bind; [apply preserves_wf_lift|].
      intros st0. apply preserves_wf_ret.
  - unfold getPendingSessions.
    destruct (negb _ && negb _); [apply preserves_wf_ret|].
    destruct (truthy (status_value _)).
    + destruct (truthy (of_opt (userId filter))); [|destruct (truthy (of_opt (guildId filter)))].
      all: apply preserves_wf_bind; [by apply preserves_wf_send|];
        intros response; apply preserves_wf_ret.
    + apply preserves_wf_bind; [by apply preserves_wf_send|]. intros response.
      destruct (truthy (of_opt (channelId filter)));
        [apply preserves_wf_lift | apply preserves_wf_ret].
  - apply preserves_wf_deleteSession.
  - intros w Hwf. by apply updateStatus_wf.
  - intros w Hwf. by apply updateStatusIf_wf.
  - unfold cleanupExpiredSessions.
    apply preserves_wf_bind; [by apply preserves_wf_send|]. intros response.
    apply preserves_wf_bind; [|intros _; apply preserves_wf_ret].
    apply preserves_wf_for_each. intros item.
    destruct (truthy _); [apply preserves_wf_deleteSession | apply preserves_wf_ret].
Qed.

Lemma manager_keeps_wf_witness :
  preserves_wf (saveState 9000 "s1" s1_state {| ttl := None; includeError := false |}) /\
  preserves_wf (cleanupExpiredSessions 9000).
Proof.
  destruct (manager_keeps_wf (fun _ => NaN) 9000 "s1" s1_state
              {| ttl := None; includeError := false |} RUNNING RUNNING
              {| userId := None; guildId := None; channelId := None; status := None |})
    as (H1 & _ & _ & _ & _ & _ & H7).
  - discriminate.
  - split; assumption.
Defined.

(** ** More on the sweep *)

(** What a sweep leaves, record by record. *)
Lemma cleanupExpiredSessions_effect date_now w :
  faults w = [] ->
  wf_table (table w) ->
  let now_s := date_now / 1000 in
  let r := cleanupExpiredSessions date_now w in
  fst r = Return (length (List.filter (expired_running now_s) (items (table w)))) /\
  faults (snd r) = [] /\
  (forall id, table (snd r) !! id =
     match table w !! id with
     | Some item => if expired_running now_s item then None else Some item
     | None => None
     end).
Proof.
  intros Hf Hwf now_s r. subst r.
  rewrite (cleanupExpiredSessions_run date_now w Hf). fold now_s.
  set (e := EAnd _ _).
  assert (Hitems : List.filter (eval e) (items (table w)) =
                   (List.filter (fun kv => expired_running now_s kv.2)
                      (map_to_list (table w))).*2).
  { unfold items. rewrite filter_snd_fmap. f_equal. }
  assert (Hcount : List.filter (expired_running now_s) (items (table w)) =
                   (List.filter (fun kv => expired_running now_s kv.2)
                      (map_to_list (table w))).*2).
  { unfold items. by rewrite filter_snd_fmap. }
  rewrite Hitems, Hcount.
  set (l := List.filter _ (map_to_list (table w))).
  assert (Hl : forall k it, (k, it) ∈ l <->
                 table w !! k = Some it /\ expired_running now_s it = true).
  { intros k it. subst l. rewrite filter_elem_of, elem_of_map_to_list. done. }
  destruct (sweep_loop l (read_only (ScanCommand e) w)) as (Hr & Hfr & Hlook & _).
  { simpl. by rewrite Hf. }
  { apply NoDup_fst_filter, NoDup_fst_map_to_list. }
  { intros k it Hin. apply Hl in Hin as [Hit _].
    destruct (Hwf k it Hit). done. }
  cbv zeta in *. cbn [fst snd]. rewrite Hr. cbn [table read_only] in Hlook.
  split_and!; [done | done |].
  intros id. rewrite Hlook.
  destruct (table w !! id) as [item|] eqn:Hit.
  - destruct (expired_running now_s item) eqn:Hexp.
    + rewrite decide_True; [done|].
      apply list_elem_of_fmap. exists (id, item). split; [done|]. by apply Hl.
    + rewrite decide_False; [done|].
      intros Hin. apply list_elem_of_fmap in Hin as ([k it] & -> & Hin).
      apply Hl in Hin as [Hit' Hexp']. simpl in Hit. congruence.
  - by destruct (decide _).
Qed.

Lemma filter_nil_of_false {A} (p : A -> bool) (l : list A) :
  (forall x, In x l -> p x = false) -> List.filter p l = [].
Proof.
  induction l as [|x l IH]; simpl; [done|]. intros Hall.
  rewrite (Hall x) by (by left). apply IH. intros y Hy. apply Hall. by right.
Qed.

(** X9. A second sweep finds nothing. On a backend that answers and a
    well-formed table, sweeping again at the same clock reading right
    after a sweep returns 0 and leaves the table as the first sweep left
    it. *)
Theorem cleanupExpiredSessions_twice (date_now : Z) (w : World) :
  faults w = [] ->
  wf_table (table w) ->
  let w1 := snd (cleanupExpiredSessions date_now w) in
  fst (cleanupExpiredSessions date_now w1) = Return 0%nat /\
  table (snd (cleanupExpiredSessions date_now w1)) = table w1.
Proof.
  intros Hf Hwf w1.
  destruct (cleanupExpiredSessions_effect date_now w Hf Hwf) as (_ & Hf1 & Hlook).
  fold w1 in Hf1, Hlook.
  rewrite (cleanupExpiredSessions_run date_now w1 Hf1).
  rewrite filter_nil_of_false; [done|].
  intros x Hx. apply In_items in Hx as [id Hid]. rewrite Hlook in Hid.
  rewrite scan_filter_expired_running.
  destruct (table w !! id) as [item|]; [|discriminate].
  destruct (expired_running _ item) eqn:E; [discriminate|]. congruence.
Qed.

Lemma cleanupExpiredSessions_twice_witness :
  fst (cleanupExpiredSessions 100000 (snd (cleanupExpiredSessions 100000 sweep_world)))
    = Return 0%nat.
Proof.
  assert (Hwf : wf_table (table sweep_world)).
  { intros k item. unfold sweep_world. simpl.
    rewrite !lookup_insert. repeat case_decide; subst;
      rewrite ?lookup_singleton; try case_decide; subst;
      intros [= <-] || intros [=]; split; done. }
  apply (proj1 (cleanupExpiredSessions_twice 100000 sweep_world eq_refl Hwf)).
Defined.

(** ** More on listing *)

(** X10. The listing lists nothing. Whatever the filter and the state
    of the backend, a sequence returned by [getPendingSessions] is empty
    and comes from the guard: the filter names neither a user nor a guild
    and nothing was sent. With a user or a guild the call throws, the
    failure of the backend or the ValidationException of the table for
    the unused value [:now]. *)
Theorem getPendingSessions_lists_nothing
    (date_now : Z) (filter : PendingSessionsFilter) (w : World) (l : list Obj) :
  fst (getPendingSessions date_now filter w) = Return l ->
  l = [] /\ ~ scoped filter /\ snd (getPendingSessions date_now filter w) = w.
Proof.
  intros Hl.
  destruct (truthy (of_opt (userId filter))) eqn:Eu;
    [|destruct (truthy (of_opt (guildId filter))) eqn:Eg].
  3: { rewrite (getPendingSessions_rejected _ _ _ Eu Eg) in *.
       injection Hl as <-. split_and!; [done | | done].
       unfold scoped. rewrite Eu, Eg. intros [|]; discriminate. }
  all: assert (Hsc : scoped filter) by (unfold scoped; rewrite ?Eu, ?Eg; tauto).
  all: destruct (next_fault w) as [e|] eqn:Hf;
    [ rewrite (getPendingSessions_scoped _ _ _ Hsc) in Hl;
      unfold mbind, M_bind in Hl; rewrite (send_fault _ _ _ Hf) in Hl
    | rewrite (getPendingSessions_throws _ _ _ Hf Hsc) in Hl ];
    discriminate.
Qed.

Lemma getPendingSessions_lists_nothing_witness :
  @nil Obj = [] /\
  ~ scoped {| userId := None; guildId := Some ""; channelId := None; status := None |} /\
  snd (getPendingSessions 6000
         {| userId := None; guildId := Some ""; channelId := None; status := None |}
         s1_saved) = s1_saved.
Proof.
  apply (getPendingSessions_lists_nothing 6000
           {| userId := None; guildId := Some ""; channelId := None; status := None |}
           s1_saved []).
  reflexivity.
Defined.

(** X11. A [userId] takes precedence over a [guildId]. When the filter
    supplies a [userId], the [guildId] it may also supply is ignored: the
    call does exactly what it does for the same filter without
    [guildId], on every backend. *)
Theorem getPendingSessions_user_first
    (date_now : Z) (filter : PendingSessionsFilter) (w : World) :
  truthy (of_opt (userId filter)) = true ->
  getPendingSessions date_now filter w =
  getPendingSessions date_now
    {| userId := userId filter; guildId := None;
       channelId := channelId filter; status := status filter |} w.
Proof.
  intros Hu. unfold getPendingSessions. cbn [userId guildId channelId status].
  rewrite Hu. cbn [negb andb]. reflexivity.
Qed.

Lemma getPendingSessions_user_first_witness :
  getPendingSessions 6000
    {| userId := Some "u1"; guildId := Some "g9"; channelId := None; status := None |}
    s1_saved =
  getPendingSessions 6000
    {| userId := Some "u1"; guildId := None; channelId := None; status := None |}
    s1_saved.
Proof.
  apply (getPendingSessions_user_first 6000
           {| userId := Some "u1"; guildId := Some "g9"; channelId := None; status := None |}
           s1_saved eq_refl).
Defined.

Lemma truthy_supplied o : truthy (of_opt (supplied o)) = truthy (of_opt o).
Proof. unfold supplied. by destruct (truthy (of_opt o)) eqn:E. Qed.

Lemma of_opt_supplied o : truthy (of_opt o) = true -> supplied o = o.
Proof. unfold supplied. by intros ->. Qed.

(** X12. An empty string counts as not supplied. A filter whose
    [userId], [guildId] or [channelId] is the empty string is treated
    exactly as the filter without that field, on every backend; in
    particular a filter with empty [userId] and [guildId] gets the empty
    sequence and no command is sent. *)
Theorem getPendingSessions_empty_strings
    (date_now : Z) (filter : PendingSessionsFilter) (w : World) :
  getPendingSessions date_now filter w =
  getPendingSessions date_now
    {| userId := supplied (userId filter); guildId := supplied (guildId filter);
       channelId := supplied (channelId filter); status := status filter |} w /\
  (userId filter = Some "" -> guildId filter = Some "" ->
   getPendingSessions date_now filter w = (Return [], w)).
Proof.
  split.
  - unfold getPendingSessions. cbn [userId guildId channelId status].
    rewrite !truthy_supplied.
    destruct (truthy (of_opt (userId filter))) eqn:Eu;
      destruct (truthy (of_opt (guildId filter))) eqn:Eg;
      destruct (truthy (of_opt (channelId filter))) eqn:Ec;
      rewrite ?(of_opt_supplied _ Eu), ?(of_opt_supplied _ Eg), ?(of_opt_supplied _ Ec);
      cbn [negb andb]; try reflexivity.
    all: destruct (truthy (status_value (status filter))); try reflexivity.
    all: unfold channel_check; cbn [channelId]; try reflexivity.
  - intros Hu Hg. unfold getPendingSessions. by rewrite Hu, Hg.
Qed.

Lemma getPendingSessions_empty_strings_witness :
  getPendingSessions 6000
    {| userId := Some ""; guildId := Some ""; channelId := None; status := Some RUNNING |}
    s1_saved = (Return [], s1_saved).
Proof.
  apply (proj2 (getPendingSessions_empty_strings 6000
                  {| userId := Some ""; guildId := Some ""; channelId := None;
                     status := Some RUNNING |} s1_saved)); reflexivity.
Defined.

(** ** How the operations compose *)

Lemma saved_item_keeps now id st options k v :
  ~ In k ["sessionId"; "lastUpdateTime"; "expiresAt"; "thetaState"; "context"; "error"] ->
  obj_get (metadata st) k = v ->
  v <> VUndefined ->
  obj_get (saved_item now id st options) k = v.
Proof.
  intros Hk Hget Hv. unfold saved_item, put_item.
  apply obj_get_marshall_defined; [|done].
  simpl in Hk. rewrite !obj_get_set_ne by (intros <-; tauto). done.
Qed.

Lemma saved_world now id st options w :
  faults w = [] ->
  table (snd (saveState now id st options w)) !! id = Some (saved_item now id st options) /\
  faults (snd (saveState now id st options w)) = [].
Proof.
  intros Hf. rewrite (saveState_table now id st options w (next_fault_nil w Hf)).
  simpl. rewrite lookup_insert_eq, Hf. done.
Qed.

(** X16. A saved session can be finalized. On a backend that answers,
    after [saveState] of a state whose metadata has status [s],
    [updateStatusIf] expecting [s] returns true. *)
Theorem save_then_finalize
    (now1 now2 : Z) (id : string) (st : PersistedSessionState)
    (options : SaveStateOptions) (s newStatus : SessionStatus) (w : World) :
  faults w = [] ->
  obj_get (metadata st) "status" = VStr (status_str s) ->
  fst (updateStatusIf now2 id newStatus s (snd (saveState now1 id st options w)))
    = Return true.
Proof.
  intros Hf Hst.
  destruct (saved_world now1 id st options w Hf) as [Hit Hf1].
  set (w1 := snd (saveState now1 id st options w)) in *.
  rewrite (updateStatusIf_applied now2 id newStatus s w1 _ (next_fault_nil w1 Hf1) Hit).
  - done.
  - apply saved_item_keeps; [simpl; intuition discriminate | done | discriminate].
Qed.

Lemma save_then_finalize_witness :
  fst (updateStatusIf 6000 "s1" COMPLETED RUNNING
         (snd (saveState 5000 "s1" s1_state {| ttl := Some 3600; includeError := false |}
                 empty_world))) = Return true.
Proof.
  apply (save_then_finalize 5000 6000 "s1" s1_state
           {| ttl := Some 3600; includeError := false |} RUNNING COMPLETED empty_world
           eq_refl eq_refl).
Defined.

(** X17. When the sweep takes a saved session. On a backend that
    answers and a well-formed table, a session saved as RUNNING at
    [now1] with time to live [t] and swept at [now2] is removed exactly
    when [now1 / 1000 + t < now2 / 1000] in whole seconds; otherwise the
    record is kept as saved. In particular a sweep at the clock reading
    of the save keeps every session saved with a time to live of zero or
    more. *)
Theorem save_then_sweep
    (now1 now2 : Z) (id : string) (st : PersistedSessionState)
    (options : SaveStateOptions) (w : World) :
  faults w = [] ->
  wf_table (table w) ->
  id <> "" ->
  obj_get (metadata st) "status" = VStr (status_str RUNNING) ->
  let t := default DEFAULT_TTL_SECONDS (ttl options) in
  let swept := snd (cleanupExpiredSessions now2 (snd (saveState now1 id st options w))) in
  table swept !! id =
    (if now1 / 1000 + t <? now2 / 1000 then None
     else Some (saved_item now1 id st options)) /\
  (now2 = now1 -> 0 <= t -> table swept !! id = Some (saved_item now1 id st options)).
Proof.
  intros Hf Hwf Hid Hst t swept.
  destruct (saved_world now1 id st options w Hf) as [Hit Hf1].
  assert (Hwf1 := saveState_wf now1 id st options w Hid Hwf).
  set (w1 := snd (saveState now1 id st options w)) in *.
  destruct (cleanupExpiredSessions_effect now2 w1 Hf1 Hwf1) as (_ & _ & Hlook).
  fold swept in Hlook.
  assert (Hexp : expired_running (now2 / 1000) (saved_item now1 id st options)
                 = (now1 / 1000 + t <? now2 / 1000)).
  { unfold expired_running.
    rewrite (saved_item_keeps now1 id st options "status" _
               ltac:(simpl; intuition discriminate) Hst ltac:(discriminate)).
    assert (He : obj_get (saved_item now1 id st options) "expiresAt"
                 = VNum (now1 / 1000 + t)).
    { unfold saved_item, put_item. apply obj_get_marshall_defined; [|discriminate].
      rewrite !obj_get_set_ne by discriminate. apply obj_get_set_eq. }
    rewrite He. done. }
  assert (Hres : table swept !! id =
                 (if now1 / 1000 + t <? now2 / 1000 then None
                  else Some (saved_item now1 id st options))).
  { rewrite Hlook, Hit, Hexp. done. }
  split; [exact Hres|].
  intros -> Ht. rewrite Hres.
  destruct (Z.ltb_spec (now1 / 1000 + t) (now1 / 1000)); [lia | done].
Qed.

Lemma save_then_sweep_witness :
  table (snd (cleanupExpiredSessions 5000
           (snd (saveState 5000 "s1" s1_state {| ttl := Some 0; includeError := false |}
                   empty_world)))) !! "s1"
  = Some (saved_item 5000 "s1" s1_state {| ttl := Some 0; includeError := false |}).
Proof.
  apply (proj2 (save_then_sweep 5000 5000 "s1" s1_state
                  {| ttl := Some 0; includeError := false |} empty_world eq_refl
                  ltac:(intros k item Hk; simpl in Hk; rewrite lookup_empty in Hk;
                        discriminate)
                  ltac:(discriminate) eq_refl)); [reflexivity | simpl; lia].
Defined.

(** ** More on restoring *)

Lemma restoreState_expired_witness :
  restoreState (fun _ => NaN) 6000 "s2" s2_stored =
    (Return None,
     {| table := delete "s2" (table s2_stored);
        faults := [];
        log := log s2_stored ++ [GetCommand "s2"; DeleteCommand (VStr "s2")] |}).
Proof.
  apply (restoreState_expired (fun _ => NaN) 6000 "s2" s2_stored s2_item s2_metadata 5);
    [reflexivity | reflexivity | reflexivity | reflexivity | lia].
Defined.

Lemma restoreState_live_witness :
  restoreState (fun _ => NaN) 5000 "s2" s2_stored =
    (Return (Some {| state := s2_item; resumable := true; elapsed := Fin 4000 |}),
     read_only (GetCommand "s2") s2_stored).
Proof.
  apply (restoreState_live (fun _ => NaN) 5000 "s2" s2_stored s2_item s2_metadata 5);
    [reflexivity | reflexivity | reflexivity | reflexivity | lia].
Defined.

(** X20. A deleted session stays gone for the readers and for the
    conditional writer. On a backend that answers, after
    [deleteSession] the id restores as null, and [updateStatusIf] brings
    no record back for any expected status: the table refuses the write
    and the call throws ConditionalCheckFailedException. *)
Theorem deleted_session_stays_gone
    (StringToNumber : string -> Number) (now : Z) (id : string)
    (newStatus expected : SessionStatus) (w : World) :
  faults w = [] ->
  let w1 := snd (deleteSession (VStr id) w) in
  fst (restoreState StringToNumber now id w1) = Return None /\
  fst (updateStatusIf now id newStatus expected w1)
    = Throw ConditionalCheckFailedException /\
  table (snd (updateStatusIf now id newStatus expected w1)) !! id = None.
Proof.
  intros Hf w1.
  assert (Hw1 : w1 = {| table := delete id (table w); faults := [];
                        log := log w ++ [DeleteCommand (VStr id)] |}).
  { subst w1. rewrite (deleteSession_run id w (next_fault_nil w Hf)). simpl.
    by rewrite Hf. }
  assert (Habs : table w1 !! id = None) by (rewrite Hw1; apply lookup_delete_eq).
  assert (Hf1 : next_fault w1 = None) by (by rewrite Hw1).
  rewrite (restoreState_absent StringToNumber now id w1 Hf1 Habs).
  rewrite (updateStatusIf_refused now id newStatus expected w1 Hf1).
  - done.
  - unfold stored_status. rewrite Habs. discriminate.
Qed.

Lemma deleted_session_stays_gone_witness :
  fst (restoreState (fun _ => NaN) 6000 "s1" (snd (deleteSession (VStr "s1") s1_saved)))
    = Return None /\
  fst (updateStatusIf 6000 "s1" COMPLETED RUNNING (snd (deleteSession (VStr "s1") s1_saved)))
    = Throw ConditionalCheckFailedException /\
  table (snd (updateStatusIf 6000 "s1" COMPLETED RUNNING
                (snd (deleteSession (VStr "s1") s1_saved)))) !! "s1" = None.
Proof.
  apply (deleted_session_stays_gone (fun _ => NaN) 6000 "s1" COMPLETED RUNNING s1_saved
           eq_refl).
Defined.

(** * Table initialisation *)

Lemma client_send_describe_present n a input :
  control_faults a = [] ->
  tables a !! n = Some input ->
  client_send (DescribeTableCommand n) a =
    (Return tt,
     {| tables := tables a; control_faults := [];
        control_log := (control_log a ++ [DescribeTableCommand n])%list;
        console := console a |}).
Proof. intros Hf Hn. unfold client_send. by rewrite Hf, Hn. Qed.

Lemma client_send_describe_absent n a :
  control_faults a = [] ->
  tables a !! n = None ->
  client_send (DescribeTableCommand n) a =
    (Throw ResourceNotFoundException,
     {| tables := tables a; control_faults := [];
        control_log := (control_log a ++ [DescribeTableCommand n])%list;
        console := console a |}).
Proof. intros Hf Hn. unfold client_send. by rewrite Hf, Hn. Qed.

(** The table the source asks for defines [expiresAt], which is a key
    of neither the table nor an index. *)
Lemma sessions_table_input_invalid name :
  schema_valid (sessions_table_input name) = false.
Proof. reflexivity. Qed.

(** X21. [initializeTable] describes, and cannot create. On a control
    plane that answers, an existing table is only described and left as
    it is, and the call returns normally. A missing table is not created:
    after the describe has failed the create is sent, and it is rejected
    with a ValidationException, because the request defines the attribute
    [expiresAt] that no key schema uses; the exception is thrown to the
    caller. In both cases no table is added or changed. *)
Theorem initializeTable_creates_nothing (env : option string) (a : Account) :
  control_faults a = [] ->
  let name := SESSIONS_TABLE env in
  let a1 := snd (initializeTable env a) in
  tables a1 = tables a /\
  (is_Some (tables a !! name) ->
   fst (initializeTable env a) = Return tt /\
   control_log a1 = (control_log a ++ [DescribeTableCommand name])%list) /\
  (tables a !! name = None ->
   fst (initializeTable env a) = Throw ValidationException /\
   control_log a1 =
     (control_log a ++ [DescribeTableCommand name;
                        CreateTableCommand (sessions_table_input name)])%list).
Proof.
  intros Hf name a1. subst a1. unfold initializeTable, client_send. fold name.
  rewrite Hf. destruct (tables a !! name) as [input|] eqn:Hn; cbn.
  - split_and!; [done | done | discriminate].
  - rewrite Hn. cbn. rewrite <- app_assoc.
    split_and!; [done | by intros [x Hx] | done].
Qed.

Lemma initializeTable_creates_nothing_witness :
  tables (snd (initializeTable None empty_account)) = tables empty_account /\
  fst (initializeTable None empty_account) = Throw ValidationException.
Proof.
  destruct (initializeTable_creates_nothing None empty_account eq_refl) as (H1 & _ & H3).
  split; [exact H1|]. apply H3. reflexivity.
Defined.



Lemma log_send c w : log (snd (send c w)) = (log w ++ [c])%list.
Proof. unfold send. by destruct (next_fault w). Qed.

Lemma bind_pure_world {A B} (m : M A) (k : A -> M B) w :
  (forall a w', snd (k a w') = w') -> snd ((m ≫= k) w) = snd (m w).
Proof.
  intros Hk. unfold mbind, M_bind. destruct (m w) as [[a|e] w']; simpl; [apply Hk | done].
Qed.

(** X23. Every query names an index the table is created with. For a
    filter naming a user or a guild, [getPendingSessions] sends exactly
    one command, a query, whatever the backend does; the index it names
    is one of the indexes [initializeTable] declares, and its key
    condition constrains exactly the hash key and the range key of that
    index, in this order. *)
Theorem queries_use_declared_indexes
    (date_now : Z) (filter : PendingSessionsFilter) (w : World) (table_name : string) :
  scoped filter ->
  exists c idx attrs i,
    log (snd (getPendingSessions date_now filter w)) = (log w ++ [c])%list /\
    query_shape c = Some (idx, attrs) /\
    find_index idx (sessions_table_input table_name) = Some i /\
    map fst (Index.KeySchema i) = attrs /\
    map snd (Index.KeySchema i) = ["HASH"; "RANGE"].
Proof.
  intros Hsc. unfold getPendingSessions, scoped in *.
  destruct (truthy (of_opt (userId filter))) eqn:Eu;
    destruct (truthy (of_opt (guildId filter))) eqn:Eg;
    try (destruct Hsc; discriminate); cbn [negb andb].
  all: destruct (truthy (status_value (status filter))).
  all: rewrite bind_pure_world, log_send
         by (intros a w'; try destruct (truthy (of_opt (channelId filter))); reflexivity).
  all: do 4 eexists; (split; [reflexivity|]); split_and!; reflexivity.
Qed.

Lemma queries_use_declared_indexes_witness :
  exists c idx attrs i,
    log (snd (getPendingSessions 6000
                {| userId := None; guildId := Some "g1"; channelId := None; status := None |}
                s1_saved)) = (log s1_saved ++ [c])%list /\
    query_shape c = Some (idx, attrs) /\
    find_index idx (sessions_table_input "clawdbot-sessions") = Some i /\
    map fst (Index.KeySchema i) = attrs /\
    map snd (Index.KeySchema i) = ["HASH"; "RANGE"].
Proof.
  apply (queries_use_declared_indexes 6000
           {| userId := None; guildId := Some "g1"; channelId := None; status := None |}
           s1_saved "clawdbot-sessions" (or_intror eq_refl)).
Defined.

(** * The GitHub service: titles and Markdown *)

Lemma drop_while_suffix p s : exists a, s = (a ++ drop_while p s)%list.
Proof.
  induction s as [|c s [a IH]]; simpl; [by exists []|].
  destruct (p c); [|by exists []]. exists (c :: a). simpl. by f_equal.
Qed.

Lemma drop_while_head p s c : head (drop_while p s) = Some c -> p c = false.
Proof.
  induction s as [|d s IH]; simpl; [done|].
  destruct (p d) eqn:E; [done|]. simpl. by intros [= <-].
Qed.

Lemma drop_while_id p s : (forall c, head s = Some c -> p c = false) -> drop_while p s = s.
Proof. destruct s as [|c s]; simpl; [done|]. intros H. by rewrite (H c eq_refl). Qed.

Lemma Forall_drop_while (P : N -> Prop) p s : Forall P s -> Forall P (drop_while p s).
Proof.
  intros H. destruct (drop_while_suffix p s) as [a Ha]. rewrite Ha in H.
  by apply Forall_app in H as [_ H].
Qed.

Lemma trim_prefix s : exists z, drop_while is_whitespace s = (trim s ++ z)%list.
Proof.
  unfold trim. set (y := drop_while is_whitespace s).
  destruct (drop_while_suffix is_whitespace (rev y)) as [a Ha].
  exists (rev a). rewrite <- rev_app_distr, <- Ha. by rewrite rev_involutive.
Qed.

Lemma Forall_trim (P : N -> Prop) s : Forall P s -> Forall P (trim s).
Proof.
  intros H. unfold trim.
  apply Forall_rev, Forall_drop_while, Forall_rev, Forall_drop_while, H.
Qed.

Lemma trim_head s c : head (trim s) = Some c -> is_whitespace c = false.
Proof.
  intros H. destruct (trim_prefix s) as [z Hz].
  apply (drop_while_head is_whitespace s). rewrite Hz.
  destruct (trim s); [discriminate | exact H].
Qed.

Lemma strip_angles_clean s : Forall (fun c => c <> LT /\ c <> GT) (strip_angles s).
Proof.
  unfold strip_angles. apply Forall_forall. intros c Hc.
  apply list_elem_of_In, filter_In in Hc as [_ Hc].
  apply negb_true_iff, orb_false_iff in Hc as [H1 H2].
  split; intros ->; [by rewrite N.eqb_refl in H1 | by rewrite N.eqb_refl in H2].
Qed.

(** X24. A sanitized title is short and free of angle brackets. For
    every title, [sanitizeTitle] returns at most 200 code units, none of
    which is [<] or [>], and the result does not begin with white
    space. *)
Theorem sanitizeTitle_safe (title : JsString) :
  (length (sanitizeTitle title) <= 200)%nat /\
  Forall (fun c => c <> LT /\ c <> GT) (sanitizeTitle title) /\
  (forall c, head (sanitizeTitle title) = Some c -> is_whitespace c = false).
Proof.
  unfold sanitizeTitle, substring0. split_and!.
  - rewrite length_firstn. lia.
  - apply Forall_take, Forall_trim, strip_angles_clean.
  - intros c Hc. apply (trim_head (strip_angles (strip_tags false title))).
    destruct (trim _); [discriminate | exact Hc].
Qed.

Lemma strip_tags_plain s :
  Forall (fun c => c <> LT /\ c <> GT) s -> strip_tags false s = s.
Proof.
  induction 1 as [|c s [Hlt Hgt] Hs IH]; simpl; [done|].
  destruct (N.eqb_spec c LT); [done|]. simpl. by rewrite IH.
Qed.

Lemma strip_angles_plain s :
  Forall (fun c => c <> LT /\ c <> GT) s -> strip_angles s = s.
Proof.
  unfold strip_angles. induction 1 as [|c s [Hlt Hgt] Hs IH]; simpl; [done|].
  destruct (N.eqb_spec c LT); [done|]. destruct (N.eqb_spec c GT); [done|].
  simpl. by rewrite IH.
Qed.

(** X25. An ordinary title passes unchanged. A title without [<] and
    [>], of at most 200 code units, that neither begins nor ends with
    white space is returned as it is by [sanitizeTitle]. *)
Theorem sanitizeTitle_identity (title : JsString) :
  Forall (fun c => c <> LT /\ c <> GT) title ->
  (length title <= 200)%nat ->
  (forall c, head title = Some c -> is_whitespace c = false) ->
  (forall c, head (rev title) = Some c -> is_whitespace c = false) ->
  sanitizeTitle title = title.
Proof.
  intros Hplain Hlen Hfirst Hlast. unfold sanitizeTitle, substring0.
  rewrite strip_tags_plain, strip_angles_plain by done.
  unfold trim. rewrite (drop_while_id _ title Hfirst).
  rewrite (drop_while_id _ (rev title) Hlast), rev_involutive.
  by apply firstn_all2.
Qed.

Lemma sanitizeTitle_identity_witness :
  sanitizeTitle (lit "Fix the login bug") = lit "Fix the login bug".
Proof.
  apply sanitizeTitle_identity.
  - vm_compute. repeat constructor; discriminate.
  - vm_compute. lia.
  - intros c [= <-]. reflexivity.
  - intros c [= <-]. reflexivity.
Defined.

Lemma markdown_special_backslash : markdown_special BACKSLASH = true.
Proof. reflexivity. Qed.

Lemma unescape_escapeMarkdown text : unescape (escapeMarkdown text) = text.
Proof.
  induction text as [|c text IH]; simpl; [done|].
  destruct (markdown_special c) eqn:E; simpl.
  - by rewrite IH.
  - destruct (N.eqb_spec c BACKSLASH) as [->|_].
    + by rewrite markdown_special_backslash in E.
    + fold (escapeMarkdown text). by rewrite IH.
Qed.

(** X26. Escaping loses nothing. [escapeMarkdown] puts a backslash
    before each of its seventeen special characters and changes nothing
    else: reading a backslash as standing for the code unit after it
    gives the text back, so two different texts never escape to the same
    string, and the result is at least as long as the text and at most
    twice as long. *)
Theorem escapeMarkdown_faithful (text : JsString) :
  unescape (escapeMarkdown text) = text /\
  (forall other, escapeMarkdown other = escapeMarkdown text -> other = text) /\
  (length text <= length (escapeMarkdown text) <= 2 * length text)%nat.
Proof.
  split_and!.
  - apply unescape_escapeMarkdown.
  - intros other H. rewrite <- (unescape_escapeMarkdown other), H.
    apply unescape_escapeMarkdown.
  - induction text as [|c text IH]; simpl; [lia|].
    fold (escapeMarkdown text). destruct (markdown_special c); simpl; lia.
  - induction text as [|c text IH]; simpl; [lia|].
    fold (escapeMarkdown text). destruct (markdown_special c); simpl; lia.
Qed.

(** * The command handler *)

Lemma split_go_pieces in_run s :
  Forall (Forall (fun c => is_whitespace c = false)) (split_go in_run s).
Proof.
  revert in_run. induction s as [|c s IH]; intros in_run; simpl.
  - repeat constructor.
  - destruct (is_whitespace c) eqn:E.
    + destruct in_run; [apply IH | constructor; [constructor | apply IH]].
    + specialize (IH false). destruct (split_go false s) as [|piece pieces].
      * repeat constructor. done.
      * apply Forall_cons in IH as [Hp Hps]. constructor; [by constructor | done].
Qed.

Lemma Forall_skipn {A} (P : A -> Prop) n (l : list A) : Forall P l -> Forall P (skipn n l).
Proof. apply Forall_drop. Qed.

Lemma join_space_plain parts :
  Forall (Forall (fun c => is_whitespace c = false)) parts ->
  only_plain_spaces (join_space parts).
Proof.
  unfold only_plain_spaces. induction 1 as [|x rest Hx Hrest IH]; simpl; [constructor|].
  assert (Hx' : Forall (fun c => is_whitespace c = true -> c = 32%N) x).
  { eapply Forall_impl; [exact Hx|]. simpl. intros c Hc Hw. congruence. }
  destruct rest as [|y rest]; [done|].
  apply Forall_app. split; [done|]. constructor; [done | exact IH].
Qed.

Lemma trim_last s c : head (rev (trim s)) = Some c -> is_whitespace c = false.
Proof. unfold trim. rewrite rev_involutive. apply drop_while_head. Qed.

Lemma nonempty_length s : nonempty s = true -> (1 <= length s)%nat.
Proof. destruct s; simpl; [discriminate | lia]. Qed.

Lemma handleMiyabiIssue_effects sv args title :
  In (CreateIssue title) (snd (handleMiyabiIssue sv args)) ->
  title = trim (join_space args) /\ (1 <= length title <= 500)%nat.
Proof.
  unfold handleMiyabiIssue.
  destruct (nonempty (trim (join_space args))) eqn:En; simpl; [|tauto].
  destruct (Nat.ltb_spec MAX_TITLE_LENGTH (length (trim (join_space args)))) as [Hl|Hl];
    simpl; [tauto|].
  apply nonempty_length in En. unfold MAX_TITLE_LENGTH in Hl.
  destruct (createIssue sv _); simpl.
  - intros [[= <-]|[]]. done.
  - intros [[= <-]|[H|[]]]; [done | discriminate].
Qed.

Lemma handleMiyabiAgent_effects sv args agent cmd :
  In (SendToAgent agent cmd) (snd (handleMiyabiAgent sv args)) ->
  head args = Some agent /\ cmd = join_space (skipn 1 args) /\
  nonempty agent = true /\
  includes validAgents (toLowerCase sv agent) = true /\
  (1 <= length cmd <= 1000)%nat.
Proof.
  unfold handleMiyabiAgent.
  destruct (nonempty (default [] (head args))) eqn:Ea; cbn [negb snd In]; [|tauto].
  destruct (nonempty (join_space (skipn 1 args))) eqn:Ec; cbn [negb snd In]; [|tauto].
  destruct (includes validAgents (toLowerCase sv (default [] (head args)))) eqn:Ev;
    cbn [negb snd In]; [|tauto].
  destruct (Nat.ltb_spec MAX_COMMAND_LENGTH (length (join_space (skipn 1 args)))) as [Hl|Hl];
    cbn [negb snd In]; [tauto|].
  apply nonempty_length in Ec. unfold MAX_COMMAND_LENGTH in Hl.
  assert (Hh : head args = Some (default [] (head args))).
  { destruct (head args); [done | discriminate]. }
  destruct (sendToAgent sv _ _); cbn [snd In].
  - intros [[= <- <-]|[]]. done.
  - intros [[= <- <-]|[H|[]]]; [done | discriminate].
Qed.

(** What a call of the handler can do: nothing, or what one of the
    three sub-handlers does on the parts after the action. *)
Lemma handleMiyabiCommand_effects sv body :
  let parts := split_whitespace body in
  snd (handleMiyabiCommand sv body) = [] \/
  snd (handleMiyabiCommand sv body) = snd (handleMiyabiIssue sv (skipn 2 parts)) \/
  snd (handleMiyabiCommand sv body) = snd (handleMiyabiStatus sv) \/
  snd (handleMiyabiCommand sv body) = snd (handleMiyabiAgent sv (skipn 2 parts)).
Proof.
  intros parts. unfold handleMiyabiCommand. fold parts.
  destruct (startsWith body _); simpl; [|by left].
  destruct (nonempty _); simpl; [|by left].
  destruct (js_eqb _ (lit "issue")); [by right; left|].
  destruct (js_eqb _ (lit "status")); [by right; right; left|].
  destruct (js_eqb _ (lit "agent")); [by right; right; right|]. by left.
Qed.

Lemma no_issue_from_status sv title : ~ In (CreateIssue title) (snd (handleMiyabiStatus sv)).
Proof. unfold handleMiyabiStatus. destruct (getStatus sv); simpl; intuition discriminate. Qed.

Lemma no_issue_from_agent sv args title :
  ~ In (CreateIssue title) (snd (handleMiyabiAgent sv args)).
Proof.
  unfold handleMiyabiAgent.
  repeat (match goal with |- context [if ?b then _ else _] => destruct b end; simpl; [tauto|]).
  destruct (sendToAgent sv _ _); simpl; intuition discriminate.
Qed.

(** X27. What reaches the issue service. Whatever the command and the
    services, every title the handler passes to [createIssue] has
    between 1 and 500 code units, neither begins nor ends with white
    space, and contains no white space other than the plain space: the
    words of the command, joined by single spaces. *)
Theorem issue_title_guard (sv : Services) (commandBody title : JsString) :
  In (CreateIssue title) (snd (handleMiyabiCommand sv commandBody)) ->
  (1 <= length title <= 500)%nat /\
  only_plain_spaces title /\
  (forall c, head title = Some c -> is_whitespace c = false) /\
  (forall c, head (rev title) = Some c -> is_whitespace c = false) /\
  title = trim (join_space (skipn 2 (split_whitespace commandBody))).
Proof.
  intros Hin.
  destruct (handleMiyabiCommand_effects sv commandBody) as [E|[E|[E|E]]];
    rewrite E in Hin.
  - destruct Hin.
  - apply handleMiyabiIssue_effects in Hin as [-> [Hlo Hhi]]. split_and!; try done.
    + apply Forall_trim, join_space_plain, Forall_skipn, split_go_pieces.
    + apply trim_head.
    + apply trim_last.
  - by apply no_issue_from_status in Hin.
  - by apply no_issue_from_agent in Hin.
Qed.

Lemma issue_title_guard_witness :
  (1 <= length (lit "Fix it") <= 500)%nat /\ only_plain_spaces (lit "Fix it").
Proof.
  destruct (issue_title_guard sample_services (lit "/miyabi ISSUE  Fix   it  ")
              (lit "Fix it")) as (H1 & H2 & _).
  - vm_compute. by left.
  - split; assumption.
Defined.

Lemma no_send_from_issue sv args agent cmd :
  ~ In (SendToAgent agent cmd) (snd (handleMiyabiIssue sv args)).
Proof.
  unfold handleMiyabiIssue.
  repeat (match goal with |- context [if ?b then _ else _] => destruct b end;
          cbn [snd In]; [tauto|]).
  destruct (createIssue sv _); cbn [snd In]; intuition discriminate.
Qed.

Lemma no_send_from_status sv agent cmd :
  ~ In (SendToAgent agent cmd) (snd (handleMiyabiStatus sv)).
Proof. unfold handleMiyabiStatus. destruct (getStatus sv); simpl; intuition discriminate. Qed.

Lemma head_skipn_In {A} n (l : list A) x : head (skipn n l) = Some x -> In x l.
Proof.
  intros H. rewrite <- (firstn_skipn n l). apply in_or_app. right.
  destruct (skipn n l); [discriminate|]. injection H as ->. by left.
Qed.

(** X28. What reaches the tmux service. Whatever the command and the
    services, every call of [sendToAgent] the handler makes names an
    agent that is not empty, contains no white space and whose lower
    case is on the list of valid agents; the agent is passed as typed.
    The command it passes has between 1 and 1000 code units and no white
    space other than the plain space. *)
Theorem agent_call_guard (sv : Services) (commandBody agent cmd : JsString) :
  In (SendToAgent agent cmd) (snd (handleMiyabiCommand sv commandBody)) ->
  includes validAgents (toLowerCase sv agent) = true /\
  (1 <= length agent)%nat /\
  Forall (fun c => is_whitespace c = false) agent /\
  nth_error (split_whitespace commandBody) 2 = Some agent /\
  (1 <= length cmd <= 1000)%nat /\
  only_plain_spaces cmd.
Proof.
  intros Hin.
  destruct (handleMiyabiCommand_effects sv commandBody) as [E|[E|[E|E]]];
    rewrite E in Hin.
  - destruct Hin.
  - by apply no_send_from_issue in Hin.
  - by apply no_send_from_status in Hin.
  - apply handleMiyabiAgent_effects in Hin as (Hhead & -> & Hne & Hvalid & Hlo & Hhi).
    pose proof (split_go_pieces false commandBody) as Hpieces.
    fold (split_whitespace commandBody) in Hpieces.
    split_and!; try done.
    + by apply nonempty_length.
    + rewrite Forall_forall in Hpieces. apply Hpieces, list_elem_of_In.
      by apply (head_skipn_In 2).
    + rewrite <- Hhead. unfold split_whitespace.
      generalize (split_go false commandBody). intros [|a [|b [|c l]]]; reflexivity.
    + apply join_space_plain. by do 2 apply Forall_skipn.
Qed.

Lemma agent_call_guard_witness :
  includes validAgents (ascii_lower (lit "Kaede")) = true /\
  (1 <= length (lit "hi there ") <= 1000)%nat.
Proof.
  destruct (agent_call_guard sample_services (lit "/miyabi agent Kaede hi there ")
              (lit "Kaede") (lit "hi there ")) as (H1 & _ & _ & _ & H5 & _).
  - vm_compute. by left.
  - split; assumption.
Defined.

Lemma handleMiyabiIssue_shape sv args :
  shouldContinue (fst (handleMiyabiIssue sv args)) = false /\
  (length (List.filter is_service_call (snd (handleMiyabiIssue sv args))) <= 1)%nat.
Proof.
  unfold handleMiyabiIssue.
  repeat (match goal with |- context [if ?b then _ else _] => destruct b end;
          [cbn; split; [done | lia] |]).
  destruct (createIssue sv _); cbn; split; (done || lia).
Qed.

Lemma handleMiyabiStatus_shape sv :
  shouldContinue (fst (handleMiyabiStatus sv)) = false /\
  (length (List.filter is_service_call (snd (handleMiyabiStatus sv))) <= 1)%nat.
Proof.
  unfold handleMiyabiStatus. destruct (getStatus sv); cbn; split; (done || lia).
Qed.

Lemma handleMiyabiAgent_shape sv args :
  shouldContinue (fst (handleMiyabiAgent sv args)) = false /\
  (length (List.filter is_service_call (snd (handleMiyabiAgent sv args))) <= 1)%nat.
Proof.
  unfold handleMiyabiAgent.
  repeat (match goal with |- context [if ?b then _ else _] => destruct b end;
          [cbn [fst snd shouldContinue replying List.filter length]; split; [done | lia] |]).
  destruct (sendToAgent sv _ _); cbn; split; (done || lia).
Qed.

(** X29. Which commands the handler takes. The handler declines,
    returning null and doing nothing, exactly the commands that do not
    start with [/miyabi]. Every other command gets a reply with
    [shouldContinue] false, and at most one call of a service is made for
    it, whatever the services answer. *)
Theorem handleMiyabiCommand_routing (sv : Services) (commandBody : JsString) :
  (startsWith commandBody (lit "/miyabi") = false ->
   handleMiyabiCommand sv commandBody = (None, [])) /\
  (startsWith commandBody (lit "/miyabi") = true ->
   exists r, fst (handleMiyabiCommand sv commandBody) = Some r /\
             shouldContinue r = false) /\
  (length (List.filter is_service_call (snd (handleMiyabiCommand sv commandBody))) <= 1)%nat.
Proof.
  pose proof (handleMiyabiIssue_shape sv (skipn 2 (split_whitespace commandBody))) as [Hi1 Hi2].
  pose proof (handleMiyabiStatus_shape sv) as [Hs1 Hs2].
  pose proof (handleMiyabiAgent_shape sv (skipn 2 (split_whitespace commandBody))) as [Ha1 Ha2].
  unfold handleMiyabiCommand.
  destruct (startsWith commandBody (lit "/miyabi")); cbn [negb].
  - split; [discriminate|].
    destruct (nonempty _); cbn [negb].
    + destruct (js_eqb _ (lit "issue")); [|destruct (js_eqb _ (lit "status"));
        [|destruct (js_eqb _ (lit "agent"))]]; cbn [fst snd];
        (split; [intros _; eexists; split; [reflexivity|done] | first [done | cbn; lia]]).
    + split; [intros _; eexists; split; [reflexivity|done] | cbn; lia].
  - split; [done|]. split; [discriminate | cbn; lia].
Qed.

Lemma handleMiyabiCommand_routing_witness :
  handleMiyabiCommand sample_services (lit "/help") = (None, []) /\
  exists r, fst (handleMiyabiCommand sample_services (lit "/miyabi status")) = Some r /\
            shouldContinue r = false.
Proof.
  split.
  - apply (proj1 (handleMiyabiCommand_routing sample_services (lit "/help"))).
    reflexivity.
  - apply (proj1 (proj2 (handleMiyabiCommand_routing sample_services
                           (lit "/miyabi status")))).
    reflexivity.
Defined.

Lemma escapeMarkdown_faithful_witness :
  unescape (escapeMarkdown (lit "*Bold* [x](y) a_b")) = lit "*Bold* [x](y) a_b" /\
  lit "a_b" = lit "a_b".
Proof.
  split.
  - apply (proj1 (escapeMarkdown_faithful (lit "*Bold* [x](y) a_b"))).
  - apply (proj1 (proj2 (escapeMarkdown_faithful (lit "a_b"))) (lit "a_b")). reflexivity.
Defined.
